(** * radstream: broadcast reconciliation, status normalisation and the
    OAuth callback, embedded in Rocq.

    Strings are [String.string]; a TypeScript value of type
    [string | undefined] is an [option string].  JavaScript truthiness on
    such a value is [truthy]: [undefined] and [""] are falsy. *)

From Stdlib Require Import String Ascii ZArith List Lia Bool.
Import ListNotations.
Open Scope string_scope.
Open Scope Z_scope.

(** ** JavaScript helpers *)

Definition truthy (s : option string) : bool :=
  match s with
  | Some v => negb (String.eqb v "")
  | None => false
  end.

(** [a || b] on [string | undefined] values. *)
Definition js_or (a b : option string) : option string :=
  if truthy a then a else b.

(** The numbers that [pickMostRecentBroadcast] manipulates: [-Infinity],
    a finite millisecond count, or [NaN] (what [Date.parse] returns on a
    string it cannot read). *)
Inductive jsnum := NegInf | Fin (z : Z) | NaN.

(** [a > b] on JavaScript numbers: every comparison with [NaN] is false. *)
Definition js_gt (a b : jsnum) : bool :=
  match a, b with
  | Fin x, Fin y => y <? x
  | Fin _, NegInf => true
  | _, _ => false
  end.

(** ** src/youtube.ts (part_010): broadcasts and [pickMostRecentBroadcast] *)

Record Snippet := mkSnippet {
  publishedAt : string;
  title : string;
  description : string;
  scheduledStartTime : option string;
  actualStartTime : option string;
  actualEndTime : option string
}.

Record YouTubeLiveBroadcast := mkBroadcast {
  b_id : string;
  snippet : Snippet;
  lifeCycleStatus : string
}.

Section Pick.
(** [Date.parse]: [None] stands for [NaN]. *)
Variable Date_parse : string -> option Z.

Definition parse_num (s : string) : jsnum :=
  match Date_parse s with Some z => Fin z | None => NaN end.

(** [s.actualStartTime || s.scheduledStartTime || s.actualEndTime
     || s.publishedAt] *)
Definition candidate (b : YouTubeLiveBroadcast) : option string :=
  let s := snippet b in
  js_or (actualStartTime s)
    (js_or (scheduledStartTime s)
      (js_or (actualEndTime s) (Some (publishedAt s)))).

(** [candidate ? Date.parse(candidate) : 0] *)
Definition timeOf (b : YouTubeLiveBroadcast) : jsnum :=
  match candidate b with
  | Some c => if truthy (Some c) then parse_num c else Fin 0
  | None => Fin 0
  end.

(** One iteration of [for (const b of items)]. *)
Definition pick_step (acc : option YouTubeLiveBroadcast * jsnum)
    (b : YouTubeLiveBroadcast) : option YouTubeLiveBroadcast * jsnum :=
  let (newest, newestTs) := acc in
  let t := timeOf b in
  if js_gt t newestTs then (Some b, t) else (newest, newestTs).

Definition pickMostRecentBroadcast (items : option (list YouTubeLiveBroadcast))
    : option YouTubeLiveBroadcast :=
  match items with
  | None => None
  | Some [] => None
  | Some l => fst (fold_left pick_step l (None, NegInf))
  end.
End Pick.

(** A [Date.parse] for the format the provider returns,
    ["YYYY-MM-DDTHH:MM:SSZ"]; any other string gives [NaN].  Used only to
    run the definitions on concrete data. *)
Definition digit (c : ascii) : option Z :=
  let n := nat_of_ascii c in
  if (48 <=? n)%nat && (n <=? 57)%nat then Some (Z.of_nat n - 48) else None.

Fixpoint digits (s : string) (acc : Z) : option Z :=
  match s with
  | EmptyString => Some acc
  | String c r =>
      match digit c with Some d => digits r (acc * 10 + d) | None => None end
  end.

Definition num (s : string) (off len : nat) : option Z :=
  if (off + len <=? String.length s)%nat then digits (substring off len s) 0
  else None.

(** Days since 1970-01-01 of a proleptic Gregorian date. *)
Definition days_from_civil (y m d : Z) : Z :=
  let y' := if m <=? 2 then y - 1 else y in
  let era := y' / 400 in
  let yoe := y' - era * 400 in
  let mp := if 2 <? m then m - 3 else m + 9 in
  let doy := (153 * mp + 2) / 5 + d - 1 in
  let doe := yoe * 365 + yoe / 4 - yoe / 100 + doy in
  era * 146097 + doe - 719468.

Definition iso_char (s : string) (i : nat) (c : ascii) : bool :=
  match String.get i s with Some c' => Ascii.eqb c c' | None => false end.

Definition Date_parse_iso (s : string) : option Z :=
  if negb ((String.length s =? 20)%nat && iso_char s 4 "-" && iso_char s 7 "-"
           && iso_char s 10 "T" && iso_char s 13 ":" && iso_char s 16 ":"
           && iso_char s 19 "Z") then None else
  match num s 0 4, num s 5 2, num s 8 2, num s 11 2, num s 14 2, num s 17 2 with
  | Some y, Some mo, Some d, Some h, Some mi, Some se =>
      if (1 <=? mo) && (mo <=? 12) && (1 <=? d) && (d <=? 31)
         && (h <=? 23) && (mi <=? 59) && (se <=? 59)
      then Some (((days_from_civil y mo d * 24 + h) * 60 + mi) * 60000 + se * 1000)
      else None
  | _, _, _, _, _, _ => None
  end.

(** ** Lifecycle status labels (part_001 / part_002: [humanizeStatus]) *)

Record Label := mkLabel { label : string; color : string }.

Definition humanizeStatus (s : string) : Label :=
  if String.eqb s "live" then mkLabel "Live" "#dc2626"
  else if String.eqb s "created" || String.eqb s "ready" || String.eqb s "testing"
  then mkLabel "Starting Soon" "#f59e0b"
  else if String.eqb s "complete" then mkLabel "Ended" "#16a34a"
  else if String.eqb s "canceled" || String.eqb s "revoked"
  then mkLabel (if String.eqb s "canceled" then "Canceled" else "Revoked") "#6b7280"
  else mkLabel s "#6b7280".

(** ** Stream status labels *)

(** src/hooks/useLivestream.tsx: the [switch] inside [useLivestream]. *)
Definition useLivestream_label (status : option string) : string :=
  match status with
  | Some "active" => "receiving data"
  | Some "error" => "lost connection"
  | _ =>
      match js_or status (Some "waiting for connection..") with
      | Some v => v
      | None => "waiting for connection.."
      end
  end.

(** src/index.tsx: the [switch] of the [/api/livestream/status] route. *)
Definition livestream_status_route_label (status : option string) : string :=
  match status with
  | Some "active" => "streaming"
  | Some "error" => "lost connection"
  | _ => "waiting for connection.."
  end.

Example iso_epoch : Date_parse_iso "1970-01-02T00:00:01Z" = Some 86401000.
Proof. reflexivity. Qed.
Example iso_2024 : Date_parse_iso "2024-03-01T00:00:00Z" = Some 1709251200000.
Proof. reflexivity. Qed.

(** ** Effects: a trace of outbound calls and an exception *)

(** A JavaScript [async] function run against a fixed provider: the calls it
    issued, in order, and either its return value or the message of the
    [Error] it threw.  Calls issued before a throw stay in the trace. *)
Inductive result (A : Type) := Ok (a : A) | Err (msg : string).
Arguments Ok {A} a.
Arguments Err {A} msg.

Section Trace.
Context {E : Type}.

Definition M (A : Type) : Type := (list E * result A)%type.

Definition mret {A} (a : A) : M A := ([], Ok a).

Definition mthrow {A} (msg : string) : M A := ([], Err msg).

Definition emit (e : E) : M unit := ([e], Ok tt).

Definition mbind {A B} (m : M A) (f : A -> M B) : M B :=
  match m with
  | (t, Err e) => (t, Err e)
  | (t, Ok a) => let (t', r) := f a in ((t ++ t')%list, r)
  end.

Definition trace {A} (m : M A) : list E := fst m.
Definition outcome {A} (m : M A) : result A := snd m.
End Trace.

Notation "x <- m ;; k" := (mbind m (fun x => k))
  (at level 61, m at next level, right associativity).
Notation "m ;; k" := (mbind m (fun _ => k))
  (at level 61, right associativity).

(** [await p] where the provider answered with [r]. *)
Definition await {E A} (r : result A) : @M E A :=
  match r with Ok a => mret a | Err m => mthrow m end.

(** ** src/youtube.ts (part_010): the stream-key resolver *)

Record LiveStream := mkLiveStream {
  ls_id : string;
  streamName : option string;
  ingestionAddress : option string;
  rtmpsIngestionAddress : option string;
  isReusable : option bool
}.

(** What the provider and the token store answer during one call:
    [ensureAccessToken] (an access token or its error), the
    [liveStreams.list] response, and the stream name in the
    [liveStreams.insert] response. *)
Record KeyEnv := mkKeyEnv {
  k_token : result string;
  k_list : result (list LiveStream);
  k_insert : result (option string)
}.

Inductive KeyCall := ListStreams | InsertStream.

Record StreamKeyResult := mkKey { streamKey : option string; ingestUrl : option string }.

Definition nullish_or {A} (a b : option A) : option A :=
  match a with Some _ => a | None => b end.

(** The test [key && (s.contentDetails?.isReusable ?? true)]. *)
Definition reusable (s : LiveStream) : bool :=
  truthy (streamName s) && match isReusable s with Some r => r | None => true end.

(** The [for ... of list.items] loop shared by both functions: the first
    reusable stream, with its key and ingest URL. *)
Fixpoint first_reusable (items : list LiveStream) : option StreamKeyResult :=
  match items with
  | [] => None
  | s :: rest =>
      if reusable s
      then Some (mkKey (streamName s)
                       (nullish_or (rtmpsIngestionAddress s) (ingestionAddress s)))
      else first_reusable rest
  end.

Definition listStreams (env : KeyEnv) : @M KeyCall (list LiveStream) :=
  emit ListStreams ;; await (k_list env).

Definition insertReusableStream (env : KeyEnv) : @M KeyCall (option string) :=
  emit InsertStream ;; await (k_insert env).

Definition getYouTubeStreamKey (env : KeyEnv) : @M KeyCall StreamKeyResult :=
  _ <- await (k_token env) ;;
  items <- listStreams env ;;
  match first_reusable items with
  | Some r => mret r
  | None => key <- insertReusableStream env ;; mret (mkKey key None)
  end.

Definition peekYouTubeStreamKey (env : KeyEnv) : @M KeyCall StreamKeyResult :=
  _ <- await (k_token env) ;;
  items <- listStreams env ;;
  match first_reusable items with
  | Some r => mret r
  | None => mret (mkKey None None)
  end.

(** ** src/hooks/useStartStream.tsx and useEndStream (part_005) *)

(** The data of [useBroadcast()]: the first listed broadcast. *)
Record BroadcastHook := mkHook {
  bh_id : option string;
  bh_status : option string;
  bh_title : option string;
  bh_description : option string;
  bh_boundStreamId : option string
}.

Record StartStreamOptions := mkOpts {
  opt_broadcastId : option string;
  opt_streamId : option string
}.

(** The hook state at the start of the mutation, and the provider's answers
    to [createBroadcast] (the new id and lifecycle status),
    [bindBroadcastToStream] and [transitionBroadcast] (the new status). *)
Record StartEnv := mkStartEnv {
  accessToken : option string;
  broadcast : BroadcastHook;
  livestream_id : option string;
  create_resp : result (option string * option string);
  bind_resp : result (option string);
  transition_resp : result (option string)
}.

Inductive StreamCall :=
| CreateBroadcast (title description : option string)
| BindBroadcast (broadcastId streamId : string)
| TransitionBroadcast (broadcastId target : string)
| InvalidateQueries (key : string)
| Wait (ms : Z).

Record StartStreamResult := mkStartResult {
  r_broadcastId : string;
  r_streamId : string;
  r_status : option string
}.

Definition str_of (s : option string) : string :=
  match s with Some v => v | None => "" end.

Definition is_str (s : option string) (v : string) : bool :=
  match s with Some w => String.eqb w v | None => false end.

Definition WAIT_AFTER_BROADCAST_CREATE_MS : Z := 3500.

Definition targetableStatuses : list string := ["ready"; "testing"; "created"].

Definition includes (l : list string) (s : string) : bool :=
  existsb (String.eqb s) l.

(** Step 2: create a broadcast when there is none or it is complete; the
    result is [(justCreated, workingBroadcastId, workingBroadcastStatus)]. *)
Definition ensure_broadcast (env : StartEnv) (wid wst : option string)
    : @M StreamCall (bool * option string * option string) :=
  if negb (truthy wid) || is_str wst "complete" then
    emit (CreateBroadcast (bh_title (broadcast env)) (bh_description (broadcast env))) ;;
    created <- await (create_resp env) ;;
    emit (InvalidateQueries "broadcast") ;;
    mret (true, fst created, snd created)
  else mret (false, wid, wst).

Definition startStream (env : StartEnv) (opts : StartStreamOptions)
    : @M StreamCall StartStreamResult :=
  let b := broadcast env in
  if negb (truthy (accessToken env)) then mthrow "Missing access token" else
  let wid := js_or (opt_broadcastId opts) (bh_id b) in
  let wst := bh_status b in
  (* 1. early exit if already live *)
  if is_str wst "live" && truthy wid then
    mret (mkStartResult (str_of wid)
            (str_of (js_or (opt_streamId opts)
                      (js_or (bh_boundStreamId b)
                        (js_or (livestream_id env) (Some ""))))) wst)
  else
  w <- ensure_broadcast env wid wst ;;
  let '(justCreated, wid, wst) := w in
  if negb (truthy wid)
  then mthrow "No broadcast available after creation attempt" else
  (* 3. stream id *)
  let streamId := js_or (opt_streamId opts)
                    (js_or (bh_boundStreamId b) (livestream_id env)) in
  if negb (truthy streamId)
  then mthrow "No livestream stream id available to bind" else
  (* 4. bind if not bound *)
  (if negb (truthy (bh_boundStreamId b)) then
     emit (BindBroadcast (str_of wid) (str_of streamId)) ;;
     _ <- await (bind_resp env) ;;
     emit (InvalidateQueries "broadcast")
   else mret tt) ;;
  (* 5. transition only from a targetable status *)
  if negb (includes targetableStatuses (str_of (js_or wst (Some ""))))
  then mret (mkStartResult (str_of wid) (str_of streamId) wst) else
  (* 6. stabilisation wait after a create *)
  (if justCreated then emit (Wait WAIT_AFTER_BROADCAST_CREATE_MS) else mret tt) ;;
  emit (TransitionBroadcast (str_of wid) "live") ;;
  status <- await (transition_resp env) ;;
  (* 7. invalidate caches *)
  emit (InvalidateQueries "broadcast") ;;
  emit (InvalidateQueries "livestream") ;;
  mret (mkStartResult (str_of wid) (str_of streamId) status).

(** [workingBroadcastStatus] as [startStream] holds it when it reaches its
    early exit or step 5. *)
Definition working_status (env : StartEnv) (opts : StartStreamOptions) : option string :=
  let wid := js_or (opt_broadcastId opts) (bh_id (broadcast env)) in
  let wst := bh_status (broadcast env) in
  if is_str wst "live" && truthy wid then wst
  else if negb (truthy wid) || is_str wst "complete" then
    match create_resp env with Ok (_, cst) => cst | Err _ => wst end
  else wst.

(** part_005: [useEndStream]. *)
Record EndEnv := mkEndEnv {
  e_accessToken : option string;
  e_broadcastId : option string;
  e_broadcastStatus : option string;
  e_transition_resp : result (option string)
}.

(** The message part_005 throws when the broadcast is not live, as the
    UTF-8 bytes of its source text: between ["live "] and [" cannot end"]
    the source holds the three characters U+00E2, U+20AC and U+201C (a dash
    stored in the wrong encoding), bytes C3 A2, E2 82 AC and E2 80 9C. *)
Definition not_live_msg : string :=
  "Broadcast not live " ++
  String (ascii_of_nat 195) (String (ascii_of_nat 162)
  (String (ascii_of_nat 226) (String (ascii_of_nat 130) (String (ascii_of_nat 172)
  (String (ascii_of_nat 226) (String (ascii_of_nat 128) (String (ascii_of_nat 156)
  " cannot end"))))))).

Definition endStream (env : EndEnv) : @M StreamCall (option string) :=
  if negb (truthy (e_accessToken env)) then mthrow "Missing access token" else
  if negb (truthy (e_broadcastId env)) then mthrow "No active broadcast id" else
  if negb (is_str (e_broadcastStatus env) "live")
  then mthrow not_live_msg else
  emit (TransitionBroadcast (str_of (e_broadcastId env)) "complete") ;;
  status <- await (e_transition_resp env) ;;
  emit (InvalidateQueries "broadcast") ;;
  emit (InvalidateQueries "livestream") ;;
  mret status.

(** ** Broadcast upsert (part_010) and update (src/services/youtube/broadcast.ts) *)

(** The [snippet] object of a create or update request body, a
    [Record<string, string>] whose keys are among these three; [None] is an
    absent key.  [scheduledStartTime] is the instant in milliseconds that
    [toISOString()] renders. *)
Record SnippetBody := mkBody {
  sb_title : option string;
  sb_description : option string;
  sb_scheduledStartTime : option Z
}.

Inductive BroadcastCall :=
| ListBroadcasts
| GetBroadcast (id : string)
| InsertBroadcast (body : SnippetBody) (privacyStatus : option string)
| PutBroadcast (id : option string) (body : SnippetBody).

(** The clock and the provider's answers during one request. *)
Record UpsertEnv := mkUpsertEnv {
  u_now : Z;
  u_token : result string;
  u_list : result (list YouTubeLiveBroadcast);
  u_insert : result YouTubeLiveBroadcast;
  u_put : result unit;
  u_get : result (option YouTubeLiveBroadcast)
}.

Definition FIVE_MINUTES_MS : Z := 5 * 60 * 1000.

Definition isActiveStatus (s : string) : bool :=
  String.eqb s "live" || String.eqb s "testing" || String.eqb s "ready"
  || String.eqb s "created".

Definition insertBroadcast (env : UpsertEnv) (title description : option string)
    : @M BroadcastCall YouTubeLiveBroadcast :=
  let body := mkBody (if truthy title then title else None)
                     (if truthy description then description else None)
                     (Some (u_now env + FIVE_MINUTES_MS)) in
  emit (InsertBroadcast body (Some "private")) ;;
  await (u_insert env).

Definition updateTitleDescription (env : UpsertEnv) (broadcastId : string)
    (title description : option string) : @M BroadcastCall unit :=
  if negb (truthy title) && negb (truthy description) then mret tt else
  _ <- await (u_token env) ;;
  let body := mkBody title description (Some (u_now env + FIVE_MINUTES_MS)) in
  emit (PutBroadcast (Some broadcastId) body) ;;
  await (u_put env).

Section Upsert.
Variable Date_parse : string -> option Z.

Definition upsertMostRecentActiveBroadcastTitleDescription (env : UpsertEnv)
    (title description : option string) : @M BroadcastCall YouTubeLiveBroadcast :=
  _ <- await (u_token env) ;;
  emit ListBroadcasts ;;
  items <- await (u_list env) ;;
  let active := filter (fun b => isActiveStatus (lifeCycleStatus b)) items in
  match pickMostRecentBroadcast Date_parse (Some active) with
  | Some picked =>
      updateTitleDescription env (b_id picked) title description ;;
      emit (GetBroadcast (b_id picked)) ;;
      updated <- await (u_get env) ;;
      mret (match updated with Some u => u | None => picked end)
  | None => insertBroadcast env title description
  end.
End Upsert.

(** src/services/youtube/broadcast.ts: [updateBroadcastTitleDescription]
    with its helpers [fromID] and [createBroadcast]. *)
Record UpdateEnv := mkUpdateEnv {
  v_now : Z;
  v_fromID : result (option YouTubeLiveBroadcast);
  v_create : result YouTubeLiveBroadcast;
  v_put : result unit
}.

Definition fromID (env : UpdateEnv) (id : string)
    : @M BroadcastCall (option YouTubeLiveBroadcast) :=
  emit (GetBroadcast id) ;; await (v_fromID env).

Definition createBroadcast (env : UpdateEnv) (title : string) (description : option string)
    : @M BroadcastCall YouTubeLiveBroadcast :=
  emit (InsertBroadcast (mkBody (Some title) description
                           (Some (v_now env + FIVE_MINUTES_MS))) None) ;;
  await (v_create env).

Inductive UpdateOutcome := Created (b : YouTubeLiveBroadcast) | Updated.

Definition updateBroadcastTitleDescription (env : UpdateEnv)
    (id title description : option string) : @M BroadcastCall UpdateOutcome :=
  current <- (if truthy id then fromID env (str_of id) else mret None) ;;
  match (if truthy id then current else None) with
  | None =>
      c <- createBroadcast env (match title with Some t => t | None => "my livestream" end)
             description ;;
      mret (Created c)
  | Some cur =>
      let body := mkBody title description
                    (if truthy (scheduledStartTime (snippet cur))
                     then Some (v_now env + FIVE_MINUTES_MS) else None) in
      emit (PutBroadcast id body) ;;
      _ <- await (v_put env) ;;
      mret Updated
  end.

(** ** OAuth callback (part_008: [/api/oauth/google/callback]) *)

(** JavaScript strings as sequences of UTF-16 code units; a request header
    read through [Headers.get] has one code unit per byte. *)
Definition jsstr := list Z.

Definition js (s : string) : jsstr :=
  map (fun c => Z.of_nat (nat_of_ascii c)) (list_ascii_of_string s).

Definition js_truthy (s : option jsstr) : bool :=
  match s with Some (_ :: _) => true | _ => false end.

Definition jseqb (a b : jsstr) : bool :=
  if list_eq_dec Z.eq_dec a b then true else false.

(** Code units matched by [\s]. *)
Definition is_js_space (c : Z) : bool :=
  existsb (Z.eqb c)
    [9; 10; 11; 12; 13; 32; 160; 5760; 8232; 8233; 8239; 8287; 12288; 65279]
  || ((8192 <=? c) && (c <=? 8202)).

Definition hexval (c : Z) : option Z :=
  if (48 <=? c) && (c <=? 57) then Some (c - 48)
  else if (65 <=? c) && (c <=? 70) then Some (c - 55)
  else if (97 <=? c) && (c <=? 102) then Some (c - 87)
  else None.

(** ["%XY"] at the head of the input: the octet and the rest. *)
Definition read_escape (l : jsstr) : option (Z * jsstr) :=
  match l with
  | 37 :: h1 :: h2 :: r =>
      match hexval h1, hexval h2 with
      | Some a, Some b => Some (16 * a + b, r)
      | _, _ => None
      end
  | _ => None
  end.

(** [k] escaped continuation octets [10xxxxxx]. *)
Fixpoint read_conts (k : nat) (l : jsstr) : option (list Z * jsstr) :=
  match k with
  | O => Some ([], l)
  | S k' =>
      match read_escape l with
      | Some (o, r) =>
          if Z.land o 192 =? 128 then
            match read_conts k' r with
            | Some (os, r') => Some (o :: os, r')
            | None => None
            end
          else None
      | None => None
      end
  end.

(** The number of octets announced by a leading octet [>= 0x80]; [None] for
    [n = 1] or [n > 4], where Decode throws. *)
Definition utf8_len (lead : Z) : option nat :=
  if Z.land lead 224 =? 192 then Some 2%nat
  else if Z.land lead 240 =? 224 then Some 3%nat
  else if Z.land lead 248 =? 240 then Some 4%nat
  else None.

(** The code point of a well-formed UTF-8 sequence; overlong forms,
    surrogates and values above U+10FFFF are rejected. *)
Definition utf8_code_point (lead : Z) (conts : list Z) : option Z :=
  let cont := fold_left (fun acc o => acc * 64 + Z.land o 63) conts 0 in
  match conts with
  | [_] => let cp := Z.land lead 31 * 64 + cont in
           if 128 <=? cp then Some cp else None
  | [_; _] => let cp := Z.land lead 15 * 4096 + cont in
              if (2048 <=? cp) && negb ((55296 <=? cp) && (cp <=? 57343))
              then Some cp else None
  | [_; _; _] => let cp := Z.land lead 7 * 262144 + cont in
                 if (65536 <=? cp) && (cp <=? 1114111) then Some cp else None
  | _ => None
  end.

Definition utf16_encode (cp : Z) : jsstr :=
  if cp <? 65536 then [cp]
  else [55296 + (cp - 65536) / 1024; 56320 + (cp - 65536) mod 1024].

(** [decodeURIComponent]; [None] is a thrown [URIError].  [fuel] bounds
    the number of code units read. *)
Fixpoint decode_fuel (fuel : nat) (l : jsstr) : option jsstr :=
  match fuel with
  | O => match l with [] => Some [] | _ => None end
  | S fuel' =>
      match l with
      | [] => Some []
      | 37 :: _ =>
          match read_escape l with
          | None => None
          | Some (b, r) =>
              if b <? 128 then
                match decode_fuel fuel' r with
                | Some d => Some (b :: d) | None => None
                end
              else
                match utf8_len b with
                | None => None
                | Some n =>
                    match read_conts (n - 1) r with
                    | None => None
                    | Some (conts, r') =>
                        match utf8_code_point b conts with
                        | None => None
                        | Some cp =>
                            match decode_fuel fuel' r' with
                            | Some d => Some (utf16_encode cp ++ d)
                            | None => None
                            end
                        end
                    end
                end
          end
      | c :: r =>
          match decode_fuel fuel' r with
          | Some d => Some (c :: d) | None => None
          end
      end
  end%list.

Definition decodeURIComponent (s : jsstr) : option jsstr :=
  decode_fuel (length s) s.

(** [header.split(/;\s*/)] *)
Fixpoint drop_spaces (l : jsstr) : jsstr :=
  match l with
  | c :: r => if is_js_space c then drop_spaces r else l
  | [] => []
  end.

Fixpoint split_cookies_fuel (fuel : nat) (l cur : jsstr) : list jsstr :=
  match fuel with
  | O => [rev cur ++ l]%list
  | S fuel' =>
      match l with
      | [] => [rev cur]
      | 59 :: r => rev cur :: split_cookies_fuel fuel' (drop_spaces r) []
      | c :: r => split_cookies_fuel fuel' r (c :: cur)
      end
  end.

Definition split_cookies (l : jsstr) : list jsstr :=
  split_cookies_fuel (length l) l [].

(** [const [k, ...rest] = part.split("=")]: [k] and [rest.join("=")]. *)
Fixpoint split_eq (part : jsstr) : jsstr * jsstr :=
  match part with
  | [] => ([], [])
  | 61 :: r => ([], r)
  | c :: r => let (k, v) := split_eq r in (c :: k, v)
  end.

(** The cookie object as an association list, the most recent assignment
    first; [None] when a [decodeURIComponent] throws.  Both decodes run
    before the assignment [out[key] = value]; on the plain object [out] an
    assignment to ["__proto__"] goes to [Object.prototype]'s setter, which
    ignores a string, so that pair is not recorded. *)
Fixpoint parse_parts (parts : list jsstr) (out : list (jsstr * jsstr))
    : option (list (jsstr * jsstr)) :=
  match parts with
  | [] => Some out
  | part :: ps =>
      let (k, v) := split_eq part in
      match k with
      | [] => parse_parts ps out
      | _ =>
          match decodeURIComponent k with
          | None => None
          | Some dk =>
              match decodeURIComponent v with
              | None => None
              | Some dv =>
                  if jseqb dk (js "__proto__") then parse_parts ps out
                  else parse_parts ps ((dk, dv) :: out)
              end
          end
      end
  end.

Definition parseCookies (header : option jsstr) : option (list (jsstr * jsstr)) :=
  if js_truthy header then
    parse_parts (split_cookies (match header with Some h => h | None => [] end)) []
  else Some [].

Fixpoint cookie_lookup (name : jsstr) (cs : list (jsstr * jsstr)) : option jsstr :=
  match cs with
  | [] => None
  | (k, v) :: r => if jseqb k name then Some v else cookie_lookup name r
  end.

Record CallbackRequest := mkRequest {
  q_code : option jsstr;       (* url.searchParams.get("code") *)
  q_state : option jsstr;      (* url.searchParams.get("state") *)
  h_cookie : option jsstr      (* req.headers.get("cookie") *)
}.

(** The environment variables and the token endpoint's answer: [Err] is a
    non-2xx response with its body text, [Ok] a 2xx response whose JSON body
    was read and saved by [saveTokenFile].  The paths on which the handler
    rejects after the checks (a [fetch] that rejects, a body that is not
    JSON, a [Bun.write] that fails) are not represented; the theorems about
    this handler speak only of its checks and of the calls up to and
    including the token exchange request. *)
Record CallbackEnv := mkCallbackEnv {
  GOOGLE_OAUTH_CLIENT_ID : option string;
  GOOGLE_OAUTH_CLIENT_SECRET : option string;
  token_resp : result unit
}.

Inductive OAuthCall := TokenExchange (code : jsstr) | SaveTokenFile.

Record Response := mkResponse { resp_status : Z; resp_body : string }.

Definition requireEnv (v : option string) (name : string) : @M OAuthCall string :=
  if truthy v then mret (str_of v) else mthrow ("Missing required env: " ++ name).

Definition oauth_callback (env : CallbackEnv) (req : CallbackRequest)
    : @M OAuthCall Response :=
  cookies <- (match parseCookies (h_cookie req) with
              | Some c => mret c
              | None => mthrow "URIError: URI malformed"
              end) ;;
  if negb (js_truthy (q_code req)) then mret (mkResponse 400 "Missing code") else
  if negb (js_truthy (q_state req))
     || negb (match cookie_lookup (js "oauth_state") cookies, q_state req with
              | Some c, Some s => jseqb c s
              | _, _ => false
              end)
  then mret (mkResponse 400 "Invalid state") else
  _ <- requireEnv (GOOGLE_OAUTH_CLIENT_ID env) "GOOGLE_OAUTH_CLIENT_ID" ;;
  _ <- requireEnv (GOOGLE_OAUTH_CLIENT_SECRET env) "GOOGLE_OAUTH_CLIENT_SECRET" ;;
  emit (TokenExchange (match q_code req with Some c => c | None => [] end)) ;;
  match token_resp env with
  | Err text => mret (mkResponse 500 ("Token exchange failed: " ++ text))
  | Ok _ => emit SaveTokenFile ;; mret (mkResponse 302 "")
  end.

(** ** OAuth login (part_008: [setCookie] and [/api/oauth/google/login]) *)

(** The code units [encodeURIComponent] copies unchanged:
    [A-Z a-z 0-9 - _ . ! ~ * ' ( )]. *)
Definition uri_unreserved (c : Z) : bool :=
  ((65 <=? c) && (c <=? 90)) || ((97 <=? c) && (c <=? 122))
  || ((48 <=? c) && (c <=? 57))
  || existsb (Z.eqb c) [45; 95; 46; 33; 126; 42; 39; 40; 41].

(** An upper-case hexadecimal digit. *)
Definition hexdigit (n : Z) : Z := if n <? 10 then 48 + n else 55 + n.

(** ["%XY"] for one octet. *)
Definition pct (o : Z) : jsstr := [37; hexdigit (o / 16); hexdigit (o mod 16)].

(** The UTF-8 octets of a code point. *)
Definition utf8_encode (cp : Z) : list Z :=
  if cp <? 128 then [cp]
  else if cp <? 2048 then [192 + cp / 64; 128 + cp mod 64]
  else if cp <? 65536 then [224 + cp / 4096; 128 + (cp / 64) mod 64; 128 + cp mod 64]
  else [240 + cp / 262144; 128 + (cp / 4096) mod 64; 128 + (cp / 64) mod 64;
        128 + cp mod 64].

Definition escape_code_point (cp : Z) : jsstr := flat_map pct (utf8_encode cp).

(** [encodeURIComponent]; [None] is a thrown [URIError] (an unpaired
    surrogate). *)
Fixpoint encodeURIComponent (l : jsstr) : option jsstr :=
  match l with
  | [] => Some []
  | c :: r =>
      if uri_unreserved c then option_map (cons c) (encodeURIComponent r)
      else if (55296 <=? c) && (c <=? 56319) then
        match r with
        | c2 :: r' =>
            if (56320 <=? c2) && (c2 <=? 57343) then
              option_map (app (escape_code_point
                                 ((c - 55296) * 1024 + (c2 - 56320) + 65536)))
                         (encodeURIComponent r')
            else None
        | [] => None
        end
      else if (56320 <=? c) && (c <=? 57343) then None
      else option_map (app (escape_code_point c)) (encodeURIComponent r)
  end.

(** A cookie attribute: [true] (the bare name) or a string value. *)
Inductive AttrVal := AttrTrue | AttrStr (v : jsstr).

(** [Array.prototype.join(sep)] *)
Fixpoint join (sep : jsstr) (l : list jsstr) : jsstr :=
  match l with
  | [] => []
  | [x] => x
  | x :: r => x ++ sep ++ join sep r
  end%list.

Definition attr_entry (kv : jsstr * AttrVal) : jsstr :=
  match kv with
  | (k, AttrTrue) => k
  | (k, AttrStr v) => k ++ [61] ++ v
  end%list.

(** [setCookie(name, value, attrs)], the entries of [attrs] in insertion
    order; [None] is a thrown [URIError]. *)
Definition setCookie (name value : jsstr) (attrs : list (jsstr * AttrVal)) : option jsstr :=
  let attrStr := join [59; 32] (map attr_entry attrs) in
  match encodeURIComponent name with
  | None => None
  | Some n =>
      match encodeURIComponent value with
      | None => None
      | Some v =>
          Some (n ++ [61] ++ v ++ match attrStr with [] => [] | _ => [59; 32] ++ attrStr end)
      end
  end%list.

(** The status and the [Set-Cookie] header of the login redirect ([Location]
    is not modelled). *)
Record LoginResponse := mkLoginResponse { login_status : Z; login_set_cookie : jsstr }.

(** [/api/oauth/google/login] with [crypto.randomUUID()] returning [state]. *)
Definition oauth_login (env : CallbackEnv) (state : jsstr) : @M OAuthCall LoginResponse :=
  _ <- requireEnv (GOOGLE_OAUTH_CLIENT_ID env) "GOOGLE_OAUTH_CLIENT_ID" ;;
  match setCookie (js "oauth_state") state
          [(js "HttpOnly", AttrTrue); (js "Path", AttrStr (js "/"));
           (js "SameSite", AttrStr (js "Lax"))] with
  | Some c => mret (mkLoginResponse 302 c)
  | None => mthrow "URIError: URI malformed"
  end.

(** The browser between the two routes: what it sends back in [Cookie] for a
    [Set-Cookie] value is its name-value pair, the code units before the
    first [";"] (RFC 6265, section 5.2). *)
Fixpoint cookie_pair (set_cookie : jsstr) : jsstr :=
  match set_cookie with
  | [] => []
  | c :: r => if c =? 59 then [] else c :: cookie_pair r
  end.

(** ** Access tokens (part_010: [ensureAccessToken]) *)

(** [try { m } catch (e) { h(e.message) }] *)
Definition mcatch {E A} (m : @M E A) (h : string -> @M E A) : @M E A :=
  match m with
  | (t, Err e) => let (t', r) := h e in ((t ++ t')%list, r)
  | (t, Ok a) => (t, Ok a)
  end.

(** [s.includes(pat)] *)
Fixpoint str_includes (pat s : string) : bool :=
  String.prefix pat s
  || match s with EmptyString => false | String _ r => str_includes pat r end.

(** The fields of a [TokenResponse] the code reads; [None] is an absent key. *)
Record TokenResponse := mkToken {
  tr_access_token : option string;
  tr_refresh_token : option string
}.

Record DeviceCodeResponse := mkDevice {
  device_code : string;
  interval : option Z    (* None: the key is absent, [device.interval] is undefined *)
}.

(** The largest delay [setTimeout] honours, in milliseconds. *)
Definition TIMEOUT_MAX : Z := 2147483647.

(** The delay [setTimeout] actually waits (Node's rule, which Bun follows):
    a requested delay that is NaN ([None]), below 1 or above [TIMEOUT_MAX]
    is replaced by 1 millisecond. *)
Definition timer_delay (ms : option Z) : Z :=
  match ms with
  | Some d => if (1 <=? d) && (d <=? TIMEOUT_MAX) then d else 1
  | None => 1
  end.

(** [Math.max(5, device.interval) * 1000]: NaN ([None]) when the interval is
    undefined. *)
Definition poll_interval_ms (device : DeviceCodeResponse) : option Z :=
  option_map (fun i => Z.max 5 i * 1000) (interval device).

(** The environment, the token file and the token endpoint during one call.
    An [Err] answer carries the message of the [Error] that [postForm] (or
    [saveTokenFile]) threw; [t_polls] are the successive answers to the
    device-code poll. *)
Record TokenEnv := mkTokenEnv {
  t_client_id : option string;          (* Bun.env.GOOGLE_OAUTH_CLIENT_ID *)
  t_client_secret : option string;      (* Bun.env.GOOGLE_OAUTH_CLIENT_SECRET *)
  t_saved : option TokenResponse;       (* loadTokenFile(): null when unreadable *)
  t_refresh : result TokenResponse;     (* the refresh_token grant *)
  t_save_refreshed : result unit;       (* saveTokenFile after a refresh *)
  t_device : result DeviceCodeResponse; (* the device-code request *)
  t_polls : list (result TokenResponse);
  t_save_polled : result unit           (* saveTokenFile after a successful poll *)
}.

Inductive TokenCall :=
| RefreshToken (refresh_token : string)
| SaveToken (obj : TokenResponse)
| RequestDeviceCode
| Sleep (ms : Z)            (* the wait [setTimeout] makes, after its clamp *)
| PollToken (device_code : string).

Record AccessToken := mkAccess {
  at_access_token : option string;
  at_refresh_token : option string
}.

Definition validateString (v : option string) : @M TokenCall string :=
  match v with Some s => mret s | None => mthrow "Expected a string value" end.

(** The errors on which the poll loop keeps polling. *)
Definition retryable (msg : string) : bool :=
  str_includes "authorization_pending" msg || str_includes "slow_down" msg.

(** The [while (true)] loop over the scripted answers; [Ok None] means the
    loop is still polling when they run out. *)
Fixpoint poll_loop (env : TokenEnv) (pollIntervalMs : option Z) (dc : string)
    (answers : list (result TokenResponse)) : @M TokenCall (option AccessToken) :=
  match answers with
  | [] => mret None
  | a :: rest =>
      emit (Sleep (timer_delay pollIntervalMs)) ;;
      mcatch (emit (PollToken dc) ;;
              tok <- await a ;;
              emit (SaveToken tok) ;;
              await (t_save_polled env) ;;
              mret (Some (mkAccess (tr_access_token tok) (tr_refresh_token tok))))
             (fun msg => if retryable msg then poll_loop env pollIntervalMs dc rest
                         else mthrow msg)
  end.

Definition device_flow (env : TokenEnv) : @M TokenCall (option AccessToken) :=
  emit RequestDeviceCode ;;
  device <- await (t_device env) ;;
  poll_loop env (poll_interval_ms device) (device_code device) (t_polls env).

Definition ensureAccessToken (env : TokenEnv) : @M TokenCall (option AccessToken) :=
  _ <- validateString (t_client_id env) ;;
  _ <- validateString (t_client_secret env) ;;
  match t_saved env with
  | Some saved =>
      if truthy (tr_refresh_token saved) then
        mcatch (emit (RefreshToken (str_of (tr_refresh_token saved))) ;;
                refreshed <- await (t_refresh env) ;;
                emit (SaveToken (mkToken (nullish_or (tr_access_token refreshed)
                                                     (tr_access_token saved))
                                         (tr_refresh_token saved))) ;;
                await (t_save_refreshed env) ;;
                mret (Some (mkAccess (tr_access_token refreshed) (tr_refresh_token saved))))
               (fun _ => device_flow env)
      else device_flow env
  | None => device_flow env
  end.

(** ** Latest broadcast of any status (part_010) *)

Record ActiveBroadcastInfo := mkInfo {
  info_id : string;
  info_title : string;
  info_status : string;
  info_url : string;
  info_raw : YouTubeLiveBroadcast
}.

Section AnyStatus.
Variable Date_parse : string -> option Z.

(** [getMostRecentBroadcastAnyStatus]; an absent [items] behaves as [[]]. *)
Definition getMostRecentBroadcastAnyStatus (env : UpsertEnv)
    : @M BroadcastCall (option ActiveBroadcastInfo) :=
  _ <- await (u_token env) ;;
  emit ListBroadcasts ;;
  items <- await (u_list env) ;;
  match pickMostRecentBroadcast Date_parse (Some items) with
  | None => mret None
  | Some picked =>
      mret (Some (mkInfo (b_id picked) (title (snippet picked)) (lifeCycleStatus picked)
                         ("https://www.youtube.com/watch?v=" ++ b_id picked) picked))
  end.
End AnyStatus.

(** ** src/hooks/useLivestream.tsx: the status query *)

Record StreamStatusItem := mkStatusItem {
  st_id : string;
  st_streamStatus : option string
}.

(** The value [res.json()] gives for a [liveStreams.list] answer, as far as
    the code reads it: [null], or any other value with its [items] array
    ([None] when absent) and its [error.message] ([None] when absent). *)
Inductive StreamsJson (A : Type) :=
| JsonNull
| JsonValue (items : option (list A)) (error_message : option string).
Arguments JsonNull {A}.
Arguments JsonValue {A} items error_message.

Definition json_items {A} (data : StreamsJson A) : option (list A) :=
  match data with JsonNull => None | JsonValue items _ => items end.

(** [data?.error?.message]. *)
Definition json_error_message {A} (data : StreamsJson A) : option string :=
  match data with JsonNull => None | JsonValue _ m => m end.

(** What [fetch] gives: a rejected promise (a network error, with the
    message it rejects with), or an answer with its [ok] flag and its parsed
    body, [None] when the body is not JSON. *)
Inductive FetchResponse (A : Type) :=
| FetchRejected (message : string)
| FetchAnswer (ok : bool) (body : option (StreamsJson A)).
Arguments FetchRejected {A} message.
Arguments FetchAnswer {A} ok body.

Inductive HookCall := FetchLiveStreams (parts : string).

(** The errors the engine throws on these paths; their texts are the
    engine's, and nothing below depends on them. *)
Definition JSON_PARSE_ERROR : string := "SyntaxError: JSON.parse: unexpected character".
Definition NULL_ITEMS_ERROR : string := "TypeError: Cannot read properties of null (reading 'items')".
Definition UNDEFINED_INDEX_ERROR : string :=
  "TypeError: Cannot read properties of undefined (reading '0')".

(** [fetchStreams]: the body is parsed before [res.ok] is looked at. *)
Definition fetchStreams {A} (resp : FetchResponse A) (parts : string)
    : @M HookCall (option (list A)) :=
  emit (FetchLiveStreams parts) ;;
  match resp with
  | FetchRejected m => mthrow m
  | FetchAnswer _ None => mthrow JSON_PARSE_ERROR
  | FetchAnswer ok (Some data) =>
      if negb ok
      then mthrow (str_of (js_or (json_error_message data) (Some "Failed to fetch liveStreams")))
      else match data with
           | JsonNull => mthrow NULL_ITEMS_ERROR
           | JsonValue items _ => mret items
           end
  end.

(** The [queryFn] of [useLivestream]: [None] is [{ status: undefined }],
    [Some (status, id)] is [{ status, id }]; [streams[0]] throws when
    [data.items] is undefined. *)
Definition useLivestream_queryFn (accessToken : option string)
    (resp : FetchResponse StreamStatusItem) : @M HookCall (option (string * string)) :=
  if negb (truthy accessToken) then mret None else
  streams <- fetchStreams resp "id,status" ;;
  match streams with
  | None => mthrow UNDEFINED_INDEX_ERROR
  | Some [] => mret None
  | Some (latest :: _) => mret (Some (useLivestream_label (st_streamStatus latest), st_id latest))
  end.

(** * Theorems *)

(** ** pickMostRecentBroadcast *)

(** The millisecond value of a broadcast's timestamp ([0] when it is not a
    finite number). *)
Definition timestamp (Date_parse : string -> option Z) (b : YouTubeLiveBroadcast) : Z :=
  match timeOf Date_parse b with Fin z => z | _ => 0 end.

Section PickProofs.
Variable Date_parse : string -> option Z.

Let parses (b : YouTubeLiveBroadcast) : Prop :=
  exists z, timeOf Date_parse b = Fin z.

(** What the loop has established after reading the prefix [pre]. *)
Definition pick_inv (pre : list YouTubeLiveBroadcast)
    (acc : option YouTubeLiveBroadcast * jsnum) : Prop :=
  (pre = [] /\ acc = (None, NegInf)) \/
  exists i b z,
    nth_error pre i = Some b /\ acc = (Some b, Fin z) /\
    timeOf Date_parse b = Fin z /\
    forall j b', nth_error pre j = Some b' ->
      timestamp Date_parse b' <= z /\ ((j < i)%nat -> timestamp Date_parse b' < z).

Lemma nth_error_snoc (pre : list YouTubeLiveBroadcast) x j b' :
  nth_error (pre ++ [x]) j = Some b' ->
  ((j < length pre)%nat /\ nth_error pre j = Some b') \/ (j = length pre /\ b' = x).
Proof.
  intros H. destruct (Nat.lt_ge_cases j (length pre)) as [Hl|Hg].
  - left. rewrite nth_error_app1 in H by exact Hl. auto.
  - right. rewrite nth_error_app2 in H by exact Hg.
    destruct (j - length pre)%nat eqn:E.
    + simpl in H. inversion H. split; [lia|reflexivity].
    + destruct n; discriminate.
Qed.

Lemma pick_step_inv pre acc x :
  pick_inv pre acc -> parses x -> pick_inv (pre ++ [x]) (pick_step Date_parse acc x).
Proof.
  intros Hinv [zx Hx]. right.
  destruct Hinv as [[-> ->] | (i & b & z & Hi & -> & Hb & Hall)].
  - simpl. rewrite Hx. simpl. exists 0%nat, x, zx.
    split; [reflexivity|]. split; [reflexivity|]. split; [exact Hx|].
    intros j b' Hj. destruct j as [|[|j0]]; simpl in Hj; try discriminate.
    inversion Hj; subst. unfold timestamp. rewrite Hx. split; [lia|].
    intros Hlt. lia.
  - simpl. rewrite Hx. simpl.
    assert (Hilen : (i < length pre)%nat)
      by (apply nth_error_Some; rewrite Hi; discriminate).
    destruct (z <? zx) eqn:Ez.
    + apply Z.ltb_lt in Ez. exists (length pre), x, zx.
      split; [rewrite nth_error_app2 by lia; rewrite Nat.sub_diag; reflexivity|].
      split; [reflexivity|]. split; [exact Hx|].
      intros j b' Hj. apply nth_error_snoc in Hj.
      destruct Hj as [[Hjl Hj] | [Hj ->]].
      * destruct (Hall j b' Hj). split; [lia|]. intros _. lia.
      * unfold timestamp. rewrite Hx. split; [lia|]. intros Hlt. lia.
    + apply Z.ltb_ge in Ez. exists i, b, z.
      split; [rewrite nth_error_app1 by exact Hilen; exact Hi|].
      split; [reflexivity|]. split; [exact Hb|].
      intros j b' Hj. apply nth_error_snoc in Hj.
      destruct Hj as [[Hjl Hj] | [Hj ->]].
      * exact (Hall j b' Hj).
      * unfold timestamp. rewrite Hx. split; [lia|]. intros Hlt. lia.
Qed.

Lemma pick_fold_inv l : forall pre acc,
  pick_inv pre acc -> Forall parses l ->
  pick_inv (pre ++ l) (fold_left (pick_step Date_parse) l acc).
Proof.
  induction l as [|x l IH]; intros pre acc Hinv Hl; simpl.
  - rewrite app_nil_r. exact Hinv.
  - inversion Hl as [|? ? Hx Hrest]; subst.
    replace (pre ++ x :: l)%list with ((pre ++ [x]) ++ l)%list
      by (rewrite <- app_assoc; reflexivity).
    apply IH; [apply pick_step_inv|]; assumption.
Qed.
End PickProofs.

(** Claim C1.  [pickMostRecentBroadcast] returns [null] on [undefined] and
    on the empty list; on a non-empty list of broadcasts whose timestamps
    (the first non-empty of [actualStartTime], [scheduledStartTime],
    [actualEndTime], [publishedAt], read with [Date.parse]) are dates, it
    returns an element [b] of the list whose timestamp is the largest, and
    every element before [b] has a strictly smaller timestamp, so among
    equal timestamps the earliest wins.  This holds for every [Date.parse]. *)
Theorem pickMostRecentBroadcast_spec (Date_parse : string -> option Z)
    (items : option (list YouTubeLiveBroadcast)) :
  ((items = None \/ items = Some []) ->
   pickMostRecentBroadcast Date_parse items = None) /\
  (forall l, items = Some l -> l <> [] ->
   Forall (fun b => exists z, timeOf Date_parse b = Fin z) l ->
   exists i b,
     pickMostRecentBroadcast Date_parse items = Some b /\
     nth_error l i = Some b /\
     forall j b', nth_error l j = Some b' ->
       timestamp Date_parse b' <= timestamp Date_parse b /\
       ((j < i)%nat -> timestamp Date_parse b' < timestamp Date_parse b)).
Proof.
  split.
  - intros [-> | ->]; reflexivity.
  - intros l -> Hne Hall.
    pose proof (pick_fold_inv Date_parse l [] (None, NegInf)
                  (or_introl (conj eq_refl eq_refl)) Hall) as Hinv.
    simpl in Hinv.
    destruct Hinv as [[Hl _] | (i & b & z & Hi & Hacc & Hb & Hmax)];
      [contradiction|].
    exists i, b. assert (Hts : timestamp Date_parse b = z)
      by (unfold timestamp; rewrite Hb; reflexivity).
    rewrite Hts. split; [|split; [exact Hi|exact Hmax]].
    unfold pickMostRecentBroadcast. destruct l; [contradiction|].
    rewrite Hacc. reflexivity.
Qed.

Definition bcA : YouTubeLiveBroadcast :=
  mkBroadcast "a" (mkSnippet "2024-01-01T00:00:00Z" "A" "" None
                     (Some "2024-03-01T00:00:00Z") None) "complete".
Definition bcB : YouTubeLiveBroadcast :=
  mkBroadcast "b" (mkSnippet "2024-01-05T00:00:00Z" "B" ""
                     (Some "2024-03-01T00:00:00Z") (Some "") None) "ready".
Definition bcC : YouTubeLiveBroadcast :=
  mkBroadcast "c" (mkSnippet "2024-02-01T00:00:00Z" "C" "" None None None) "created".

(** A tie between the first two elements goes to the earlier one. *)
Example pick_tie_earliest :
  pickMostRecentBroadcast Date_parse_iso (Some [bcA; bcB; bcC]) = Some bcA.
Proof. reflexivity. Qed.

Lemma pickMostRecentBroadcast_spec_witness :
  exists i b,
    pickMostRecentBroadcast Date_parse_iso (Some [bcA; bcB; bcC]) = Some b /\
    nth_error [bcA; bcB; bcC] i = Some b /\
    forall j b', nth_error [bcA; bcB; bcC] j = Some b' ->
      timestamp Date_parse_iso b' <= timestamp Date_parse_iso b /\
      ((j < i)%nat -> timestamp Date_parse_iso b' < timestamp Date_parse_iso b).
Proof.
  apply (proj2 (pickMostRecentBroadcast_spec Date_parse_iso (Some [bcA; bcB; bcC]))
           [bcA; bcB; bcC]).
  - reflexivity.
  - discriminate.
  - apply Forall_cons; [eexists; reflexivity|].
    apply Forall_cons; [eexists; reflexivity|].
    apply Forall_cons; [eexists; reflexivity|].
    apply Forall_nil.
Defined.

(** ** Lifecycle status labels *)

Lemma eqb_false_of_not_in (s v : string) (l : list string) :
  ~ In s l -> In v l -> String.eqb s v = false.
Proof.
  intros Hn Hv. apply String.eqb_neq. intros ->. contradiction.
Qed.

Definition lifecycle_statuses : list string :=
  ["created"; "ready"; "testing"; "live"; "complete"; "revoked"; "canceled"].

(** Claim C2.  [humanizeStatus] is a total function on strings:
    ["live"] is labelled "Live"; ["created"], ["ready"] and ["testing"]
    "Starting Soon"; ["complete"] "Ended"; ["canceled"] "Canceled";
    ["revoked"] "Revoked"; and every other string is its own label, with the
    neutral gray ["#6b7280"]. *)
Theorem humanizeStatus_total (s : string) :
  (s = "live" -> label (humanizeStatus s) = "Live") /\
  (In s ["created"; "ready"; "testing"] ->
   label (humanizeStatus s) = "Starting Soon") /\
  (s = "complete" -> label (humanizeStatus s) = "Ended") /\
  (s = "canceled" -> label (humanizeStatus s) = "Canceled") /\
  (s = "revoked" -> label (humanizeStatus s) = "Revoked") /\
  (~ In s lifecycle_statuses -> humanizeStatus s = mkLabel s "#6b7280").
Proof.
  split; [intros ->; reflexivity|].
  split; [intros [<- | [<- | [<- | []]]]; reflexivity|].
  split; [intros ->; reflexivity|].
  split; [intros ->; reflexivity|].
  split; [intros ->; reflexivity|].
  intros Hn. unfold humanizeStatus.
  rewrite (eqb_false_of_not_in s "live" _ Hn) by (simpl; tauto).
  rewrite (eqb_false_of_not_in s "created" _ Hn) by (simpl; tauto).
  rewrite (eqb_false_of_not_in s "ready" _ Hn) by (simpl; tauto).
  rewrite (eqb_false_of_not_in s "testing" _ Hn) by (simpl; tauto).
  rewrite (eqb_false_of_not_in s "complete" _ Hn) by (simpl; tauto).
  rewrite (eqb_false_of_not_in s "canceled" _ Hn) by (simpl; tauto).
  rewrite (eqb_false_of_not_in s "revoked" _ Hn) by (simpl; tauto).
  reflexivity.
Qed.

Lemma humanizeStatus_total_witness :
  humanizeStatus "upcoming" = mkLabel "upcoming" "#6b7280".
Proof.
  destruct (humanizeStatus_total "upcoming") as (_ & _ & _ & _ & _ & H).
  apply H. simpl. intuition discriminate.
Defined.

(** ** Stream status labels *)

(** Counterexample to claim C3: in the [useLivestream] mapping (the one that
    says "receiving data"), the status ["inactive"] is shown as itself, not
    as "waiting for connection..". *)
Lemma stream_status_label_counterexample :
  useLivestream_label (Some "inactive") = "inactive" /\
  useLivestream_label (Some "inactive") <> "waiting for connection..".
Proof. split; [reflexivity | discriminate]. Qed.

(** Claim C3, as amended.  Both mappings are total and map ["error"] to
    "lost connection"; ["active"] is "receiving data" in [useLivestream] and
    "streaming" in the [/api/livestream/status] route.  For any other value
    the route answers "waiting for connection..", while [useLivestream]
    answers "waiting for connection.." only for a missing or empty status and
    passes any other status through unchanged. *)
Theorem stream_status_labels (s : option string) :
  useLivestream_label (Some "active") = "receiving data" /\
  livestream_status_route_label (Some "active") = "streaming" /\
  useLivestream_label (Some "error") = "lost connection" /\
  livestream_status_route_label (Some "error") = "lost connection" /\
  (s <> Some "active" -> s <> Some "error" ->
   livestream_status_route_label s = "waiting for connection.." /\
   useLivestream_label s =
     (if truthy s then str_of s else "waiting for connection..")).
Proof.
  do 4 (split; [reflexivity|]).
  intros Ha He.
  assert (Hmatch : forall A (x y z : A),
             match s with Some "active" => x | Some "error" => y | _ => z end = z).
  { intros A x y z. destruct s as [v|]; [|reflexivity].
    destruct (String.eqb_spec v "active") as [->|Hna]; [contradiction|].
    destruct (String.eqb_spec v "error") as [->|Hne]; [contradiction|].
    repeat (match goal with
            | |- context [match ?c with Ascii.Ascii _ _ _ _ _ _ _ _ => _ end] =>
                destruct c as [[] [] [] [] [] [] [] []]
            | |- context [match ?v with EmptyString => _ | String _ _ => _ end] =>
                destruct v
            end; try reflexivity); congruence. }
  split.
  - unfold livestream_status_route_label. apply Hmatch.
  - unfold useLivestream_label. rewrite Hmatch.
    unfold js_or. destruct (truthy s) eqn:Ht; [|reflexivity].
    destruct s; [reflexivity|discriminate].
Qed.

Lemma stream_status_labels_witness :
  livestream_status_route_label (Some "ready") = "waiting for connection.." /\
  useLivestream_label (Some "ready") =
    (if truthy (Some "ready") then str_of (Some "ready") else "waiting for connection..").
Proof.
  destruct (stream_status_labels (Some "ready")) as (_ & _ & _ & _ & H).
  apply H; discriminate.
Defined.

(** ** Stream-key resolver *)

Lemma reusable_false_iff (s : LiveStream) :
  reusable s = false <-> ~ (truthy (streamName s) = true /\ isReusable s <> Some false).
Proof.
  unfold reusable. split; intros H.
  - intros [H1 H2]. rewrite H1 in H.
    destruct (isReusable s) as [[]|]; simpl in H; try discriminate.
    apply H2. reflexivity.
  - destruct (truthy (streamName s)) eqn:E; [|reflexivity].
    destruct (isReusable s) as [[]|] eqn:R; simpl; try reflexivity;
      exfalso; apply H; (split; [reflexivity|discriminate]).
Qed.

Lemma first_reusable_None (items : list LiveStream) :
  first_reusable items = None ->
  forall s, In s items -> ~ (truthy (streamName s) = true /\ isReusable s <> Some false).
Proof.
  induction items as [|x rest IH]; simpl; [tauto|].
  destruct (reusable x) eqn:Hx; [discriminate|].
  intros Hn s [<- | Hin].
  - apply reusable_false_iff. exact Hx.
  - apply IH; assumption.
Qed.

Lemma first_reusable_None_of (items : list LiveStream) :
  (forall s, In s items -> ~ (truthy (streamName s) = true /\ isReusable s <> Some false)) ->
  first_reusable items = None.
Proof.
  induction items as [|x rest IH]; simpl; [reflexivity|].
  intros H. rewrite (proj2 (reusable_false_iff x) (H x (or_introl eq_refl))).
  apply IH. intros s Hs. apply H. right. exact Hs.
Qed.

Definition is_insert (c : KeyCall) : bool :=
  match c with InsertStream => true | ListStreams => false end.

(** Claim C4.  [peekYouTubeStreamKey] never issues a stream insert, and when
    the listing holds no entry with a non-empty stream key whose
    [contentDetails.isReusable] is true or absent, it returns the empty
    result.  [getYouTubeStreamKey] issues at most one insert per invocation,
    and issues it only when the listing holds no such entry. *)
Theorem stream_key_create_discipline (env : KeyEnv) :
  ~ In InsertStream (trace (peekYouTubeStreamKey env)) /\
  (forall tok items, k_token env = Ok tok -> k_list env = Ok items ->
   (forall s, In s items -> ~ (truthy (streamName s) = true /\ isReusable s <> Some false)) ->
   outcome (peekYouTubeStreamKey env) = Ok (mkKey None None)) /\
  (length (filter is_insert (trace (getYouTubeStreamKey env))) <= 1)%nat /\
  (In InsertStream (trace (getYouTubeStreamKey env)) ->
   exists items, k_list env = Ok items /\
   forall s, In s items -> ~ (truthy (streamName s) = true /\ isReusable s <> Some false)).
Proof.
  unfold peekYouTubeStreamKey, getYouTubeStreamKey, listStreams, insertReusableStream.
  destruct (k_token env) as [tok|m] eqn:Htok; simpl.
  2:{ split; [tauto|]. split; [intros ? ? H; discriminate|].
      split; [simpl; lia|]. tauto. }
  destruct (k_list env) as [items|m] eqn:Hlist; simpl.
  2:{ split; [intros [H|[]]; discriminate|].
      split; [intros ? ? _ H; discriminate|].
      split; [simpl; lia|]. intros [H|[]]; discriminate. }
  destruct (first_reusable items) as [r|] eqn:Hf; simpl.
  - split; [intros [H|[]]; discriminate|].
    split.
    + intros tok' items' _ Hl Hno. inversion Hl; subst.
      rewrite (first_reusable_None_of items' Hno) in Hf. discriminate.
    + split; [simpl; lia|]. intros [H|[]]; discriminate.
  - split; [intros [H|[]]; discriminate|].
    split; [intros; reflexivity|].
    destruct (k_insert env); simpl; (split; [lia|]);
      intros _; exists items; (split; [reflexivity|]); apply first_reusable_None; exact Hf.
Qed.

Definition ls_reusable : LiveStream :=
  mkLiveStream "s1" (Some "key-1") (Some "rtmp://a") (Some "rtmps://a") None.
Definition ls_single_use : LiveStream :=
  mkLiveStream "s0" (Some "key-0") (Some "rtmp://b") None (Some false).

Example get_key_prefers_existing :
  getYouTubeStreamKey (mkKeyEnv (Ok "tok") (Ok [ls_single_use; ls_reusable]) (Ok (Some "new")))
  = ([ListStreams], Ok (mkKey (Some "key-1") (Some "rtmps://a"))).
Proof. reflexivity. Qed.

Lemma stream_key_create_discipline_witness :
  outcome (peekYouTubeStreamKey (mkKeyEnv (Ok "tok") (Ok [ls_single_use]) (Ok (Some "new"))))
  = Ok (mkKey None None).
Proof.
  destruct (stream_key_create_discipline
              (mkKeyEnv (Ok "tok") (Ok [ls_single_use]) (Ok (Some "new"))))
    as (_ & H & _).
  apply (H "tok" [ls_single_use]); [reflexivity|reflexivity|].
  intros s [<- | []]. simpl. intros [_ Hr]. apply Hr. reflexivity.
Defined.

(** ** startStream and endStream *)

Lemma is_str_true (s : option string) (v : string) : is_str s v = true <-> s = Some v.
Proof.
  destruct s as [w|]; simpl; split; intros H; try discriminate.
  - apply String.eqb_eq in H. subst. reflexivity.
  - inversion H. apply String.eqb_refl.
Qed.

Lemma is_str_false (s : option string) (v : string) : s <> Some v -> is_str s v = false.
Proof.
  intros H. destruct (is_str s v) eqn:E; [|reflexivity].
  apply is_str_true in E. contradiction.
Qed.

Lemma includes_targetable (w : option string) :
  includes targetableStatuses (str_of (js_or w (Some ""))) = true ->
  exists st, w = Some st /\ In st targetableStatuses.
Proof.
  unfold includes. intros H.
  destruct w as [v|]; [|discriminate].
  unfold js_or, truthy in H. destruct (String.eqb v "") eqn:E; simpl in H;
    [discriminate|].
  repeat (apply Bool.orb_true_iff in H; destruct H as [H|H]); try discriminate;
    apply String.eqb_eq in H; subst; eexists; (split; [reflexivity|simpl; tauto]).
Qed.

Ltac no_transition :=
  let H := fresh "H" in
  intros ? ? H; simpl in H;
  repeat (destruct H as [H|H]; [discriminate H|]); exact H.

(** Each run of [startStream] either issues no transition and, if it
    returns, returns [workingBroadcastStatus]; or that status is one of
    ["ready"], ["testing"], ["created"]. *)
Lemma startStream_transition_dichotomy (env : StartEnv) (opts : StartStreamOptions) :
  ((forall bid tgt, ~ In (TransitionBroadcast bid tgt) (trace (startStream env opts))) /\
   (forall r, outcome (startStream env opts) = Ok r -> r_status r = working_status env opts))
  \/ exists st, working_status env opts = Some st /\ In st targetableStatuses.
Proof.
  unfold startStream, working_status, ensure_broadcast, await, trace, outcome.
  repeat (simpl; match goal with
    | |- context [if negb ?c then _ else _] => destruct c eqn:?
    | |- context [if ?c then _ else _] => destruct c eqn:?
    | |- context [match ?r with Ok _ => _ | Err _ => _ end] => destruct r eqn:?
    | |- context [match ?p with (_, _) => _ end] => destruct p eqn:?
    end);
  first
    [ left; split; [no_transition | intros ? Hr; inversion Hr; reflexivity]
    | right; apply includes_targetable; assumption ].
Qed.

Definition hook_live : BroadcastHook :=
  mkHook (Some "b1") (Some "live") (Some "My stream") None (Some "s1").
Definition hook_revoked : BroadcastHook :=
  mkHook (Some "b1") (Some "revoked") (Some "My stream") None None.

(** Counterexample to claim C5: the broadcast is live and its id known, but
    without an access token [startStream] throws "Missing access token"
    instead of returning the id and status. *)
Lemma startStream_live_counterexample :
  let env := mkStartEnv None hook_live None (Err "unused") (Err "unused") (Err "unused") in
  let opts := mkOpts None None in
  bh_status (broadcast env) = Some "live" /\
  truthy (js_or (opt_broadcastId opts) (bh_id (broadcast env))) = true /\
  startStream env opts = ([], Err "Missing access token").
Proof. repeat split; reflexivity. Qed.

(** Claim C5, as amended.  Without an access token [startStream] throws
    "Missing access token" and issues no call, for every starting state and
    options.  When an access token is present, the current broadcast's
    lifecycle status is ["live"] and a broadcast id is known
    ([opts.broadcastId || broadcast.id]), [startStream] issues no call at all
    (no create, bind, transition, wait or cache invalidation) and returns
    that id with the status ["live"]. *)
Theorem startStream_live_noop (env : StartEnv) (opts : StartStreamOptions) :
  (truthy (accessToken env) = false ->
   startStream env opts = ([], Err "Missing access token")) /\
  (truthy (accessToken env) = true ->
   bh_status (broadcast env) = Some "live" ->
   truthy (js_or (opt_broadcastId opts) (bh_id (broadcast env))) = true ->
   trace (startStream env opts) = [] /\
   exists streamId,
     outcome (startStream env opts) =
       Ok (mkStartResult (str_of (js_or (opt_broadcastId opts) (bh_id (broadcast env))))
                         streamId (Some "live"))).
Proof.
  unfold startStream. split.
  - intros Htok. rewrite Htok. reflexivity.
  - intros Htok Hlive Hid.
    rewrite Htok, Hlive, Hid. simpl.
    split; [reflexivity|eexists; reflexivity].
Qed.

Lemma startStream_live_noop_witness :
  let env := mkStartEnv (Some "tok") hook_live (Some "s9")
               (Err "unused") (Err "unused") (Err "unused") in
  let env' := mkStartEnv None hook_live (Some "s9")
               (Err "unused") (Err "unused") (Err "unused") in
  let opts := mkOpts None None in
  (trace (startStream env opts) = [] /\
   exists streamId,
     outcome (startStream env opts) =
       Ok (mkStartResult (str_of (js_or (opt_broadcastId opts) (bh_id (broadcast env))))
                         streamId (Some "live"))) /\
  startStream env' opts = ([], Err "Missing access token").
Proof.
  split.
  - apply (proj2 (startStream_live_noop
      (mkStartEnv (Some "tok") hook_live (Some "s9") (Err "unused") (Err "unused") (Err "unused"))
      (mkOpts None None))); reflexivity.
  - apply (proj1 (startStream_live_noop
      (mkStartEnv None hook_live (Some "s9") (Err "unused") (Err "unused") (Err "unused"))
      (mkOpts None None))); reflexivity.
Defined.

Definition is_transition (c : StreamCall) : bool :=
  match c with TransitionBroadcast _ _ => true | _ => false end.

(** Counterexample to claim C6: a live broadcast without an access token;
    [endStream] issues no transition at all. *)
Lemma endStream_live_counterexample :
  let env := mkEndEnv None (Some "b1") (Some "live") (Ok (Some "complete")) in
  e_broadcastStatus env = Some "live" /\
  length (filter is_transition (trace (endStream env))) = 0%nat /\
  outcome (endStream env) = Err "Missing access token".
Proof. repeat split; reflexivity. Qed.

(** Claim C6, as amended.  When the current lifecycle status is not
    ["live"], [endStream] throws and issues no call (with an access token and
    a broadcast id the error is [not_live_msg], the source's
    "Broadcast not live ... cannot end"); without an access token or a
    broadcast id it throws before any call, whatever the status; when the
    status is ["live"] and an access token and a broadcast id are present, it
    issues exactly one provider call, the ["complete"] transition of that
    broadcast, followed only by cache invalidations. *)
Theorem endStream_requires_live (env : EndEnv) :
  (e_broadcastStatus env <> Some "live" ->
   trace (endStream env) = [] /\ exists msg, outcome (endStream env) = Err msg) /\
  (e_broadcastStatus env <> Some "live" ->
   truthy (e_accessToken env) = true -> truthy (e_broadcastId env) = true ->
   outcome (endStream env) = Err not_live_msg) /\
  (truthy (e_accessToken env) = false \/ truthy (e_broadcastId env) = false ->
   trace (endStream env) = [] /\ exists msg, outcome (endStream env) = Err msg) /\
  (e_broadcastStatus env = Some "live" ->
   truthy (e_accessToken env) = true -> truthy (e_broadcastId env) = true ->
   exists rest,
     trace (endStream env) =
       TransitionBroadcast (str_of (e_broadcastId env)) "complete" :: rest /\
     Forall (fun c => exists key, c = InvalidateQueries key) rest).
Proof.
  unfold endStream.
  split; [|split; [|split]].
  - intros Hn. rewrite (is_str_false _ _ Hn).
    destruct (truthy (e_accessToken env)), (truthy (e_broadcastId env)); simpl;
      (split; [reflexivity|eexists; reflexivity]).
  - intros Hn Ht Hi. rewrite (is_str_false _ _ Hn), Ht, Hi. reflexivity.
  - intros [H|H]; rewrite H; [|destruct (truthy (e_accessToken env))]; simpl;
      (split; [reflexivity|eexists; reflexivity]).
  - intros Hl Ht Hi. rewrite Hl, Ht, Hi. simpl.
    destruct (e_transition_resp env); simpl; eexists; (split; [reflexivity|]).
    + repeat constructor; eexists; reflexivity.
    + constructor.
Qed.

Lemma endStream_requires_live_witness :
  let env := mkEndEnv (Some "tok") (Some "b1") (Some "live") (Ok (Some "complete")) in
  let env' := mkEndEnv (Some "tok") (Some "b1") (Some "ready") (Ok (Some "complete")) in
  let env'' := mkEndEnv (Some "tok") None (Some "live") (Ok (Some "complete")) in
  (exists rest,
    trace (endStream env) =
      TransitionBroadcast (str_of (e_broadcastId env)) "complete" :: rest /\
    Forall (fun c => exists key, c = InvalidateQueries key) rest) /\
  outcome (endStream env') = Err not_live_msg /\
  (trace (endStream env'') = [] /\ exists msg, outcome (endStream env'') = Err msg).
Proof.
  split; [|split].
  - apply (proj2 (proj2 (proj2 (endStream_requires_live
      (mkEndEnv (Some "tok") (Some "b1") (Some "live") (Ok (Some "complete"))))))); reflexivity.
  - apply (proj1 (proj2 (endStream_requires_live
      (mkEndEnv (Some "tok") (Some "b1") (Some "ready") (Ok (Some "complete"))))));
      [discriminate|reflexivity|reflexivity].
  - apply (proj1 (proj2 (proj2 (endStream_requires_live
      (mkEndEnv (Some "tok") None (Some "live") (Ok (Some "complete"))))))).
    right; reflexivity.
Defined.

(** Counterexample to claim C7: a ["revoked"] broadcast with no stream id
    known anywhere; [startStream] throws before reaching the status test
    instead of returning the status. *)
Lemma startStream_untargetable_counterexample :
  let env := mkStartEnv (Some "tok") hook_revoked None
               (Err "unused") (Err "unused") (Err "unused") in
  let opts := mkOpts None None in
  working_status env opts = Some "revoked" /\
  startStream env opts = ([], Err "No livestream stream id available to bind").
Proof. split; reflexivity. Qed.

(** Claim C7, as amended.  [startStream] issues a transition only when
    [workingBroadcastStatus] (the current broadcast's status, or the new
    broadcast's when it had to create one) is ["ready"], ["testing"] or
    ["created"].  For any other status it issues no transition, and whenever
    it returns rather than throwing earlier (missing access token, no stream
    id to bind, failed create or bind) it returns that status unchanged. *)
Theorem startStream_transition_gate (env : StartEnv) (opts : StartStreamOptions) :
  (forall bid tgt, In (TransitionBroadcast bid tgt) (trace (startStream env opts)) ->
   exists st, working_status env opts = Some st /\ In st ["ready"; "testing"; "created"]) /\
  (~ (exists st, working_status env opts = Some st /\ In st ["ready"; "testing"; "created"]) ->
   (forall bid tgt, ~ In (TransitionBroadcast bid tgt) (trace (startStream env opts))) /\
   (forall r, outcome (startStream env opts) = Ok r -> r_status r = working_status env opts)).
Proof.
  destruct (startStream_transition_dichotomy env opts) as [[Hno Hst] | Ht].
  - split.
    + intros bid tgt Hin. exfalso. exact (Hno bid tgt Hin).
    + intros _. split; assumption.
  - split.
    + intros _ _ _. exact Ht.
    + intros Hn. contradiction.
Qed.

Lemma startStream_transition_gate_witness :
  let env := mkStartEnv (Some "tok") hook_revoked (Some "s1")
               (Err "unused") (Ok None) (Ok (Some "live")) in
  let opts := mkOpts None None in
  (forall bid tgt, ~ In (TransitionBroadcast bid tgt) (trace (startStream env opts))) /\
  (forall r, outcome (startStream env opts) = Ok r -> r_status r = working_status env opts).
Proof.
  apply (proj2 (startStream_transition_gate
    (mkStartEnv (Some "tok") hook_revoked (Some "s1") (Err "unused") (Ok None) (Ok (Some "live")))
    (mkOpts None None))).
  simpl. intros (st & Hst & Hin). inversion Hst; subst.
  simpl in Hin. intuition discriminate.
Defined.

(** The spec's scenario: a ready, unbound broadcast and a reusable stream;
    [startStream] binds, then transitions to live. *)
Example startStream_ready_scenario :
  startStream (mkStartEnv (Some "tok") (mkHook (Some "b1") (Some "ready") (Some "t") None None)
                 (Some "s1") (Err "unused") (Ok None) (Ok (Some "live")))
              (mkOpts None None)
  = ([BindBroadcast "b1" "s1"; InvalidateQueries "broadcast";
      TransitionBroadcast "b1" "live"; InvalidateQueries "broadcast";
      InvalidateQueries "livestream"],
     Ok (mkStartResult "b1" "s1" (Some "live"))).
Proof. reflexivity. Qed.

(** ** Broadcast upsert and update *)

Definition env_no_broadcasts : UpsertEnv :=
  mkUpsertEnv 1700000000000 (Ok "tok") (Ok []) (Err "unused") (Ok tt) (Ok None).

(** Counterexample to claim C8: with an empty title supplied, the insert
    request carries no title (the code only copies a truthy title). *)
Lemma upsert_empty_title_counterexample :
  trace (upsertMostRecentActiveBroadcastTitleDescription Date_parse_iso
           env_no_broadcasts (Some "") None)
  = [ListBroadcasts;
     InsertBroadcast (mkBody None None (Some (1700000000000 + FIVE_MINUTES_MS)))
                     (Some "private")].
Proof. reflexivity. Qed.

(** Claim C8, as amended.  When the broadcasts list is empty, the upsert
    issues exactly one create request, whose snippet carries the supplied
    title when it is non-empty and leaves the title out when it is empty or
    absent, and whose [scheduledStartTime] is exactly 300 seconds after the
    current time, so between 30 and 300 seconds after it. *)
Theorem upsert_creates_on_empty (Date_parse : string -> option Z) (env : UpsertEnv)
    (title description : option string) (tok : string) :
  u_token env = Ok tok -> u_list env = Ok [] ->
  exists body,
    trace (upsertMostRecentActiveBroadcastTitleDescription Date_parse env title description)
      = [ListBroadcasts; InsertBroadcast body (Some "private")] /\
    (truthy title = true -> sb_title body = title) /\
    (truthy title = false -> sb_title body = None) /\
    sb_scheduledStartTime body = Some (u_now env + 300 * 1000) /\
    exists t, sb_scheduledStartTime body = Some t /\
              u_now env + 30 * 1000 <= t <= u_now env + 300 * 1000.
Proof.
  intros Htok Hlist.
  unfold upsertMostRecentActiveBroadcastTitleDescription, insertBroadcast.
  rewrite Htok, Hlist. simpl.
  eexists. split.
  - destruct (u_insert env); reflexivity.
  - cbn [sb_title sb_scheduledStartTime]. unfold FIVE_MINUTES_MS.
    split; [|split; [|split]].
    + intros H. rewrite H. reflexivity.
    + intros H. rewrite H. reflexivity.
    + reflexivity.
    + eexists; split; [reflexivity|lia].
Qed.

Lemma upsert_creates_on_empty_witness :
  (exists body,
    trace (upsertMostRecentActiveBroadcastTitleDescription Date_parse_iso
             env_no_broadcasts (Some "Launch") None)
      = [ListBroadcasts; InsertBroadcast body (Some "private")] /\
    (truthy (Some "Launch") = true -> sb_title body = Some "Launch") /\
    (truthy (Some "Launch") = false -> sb_title body = None) /\
    sb_scheduledStartTime body = Some (u_now env_no_broadcasts + 300 * 1000) /\
    exists t, sb_scheduledStartTime body = Some t /\
              u_now env_no_broadcasts + 30 * 1000 <= t <= u_now env_no_broadcasts + 300 * 1000) /\
  (exists body,
    trace (upsertMostRecentActiveBroadcastTitleDescription Date_parse_iso
             env_no_broadcasts (Some "") None)
      = [ListBroadcasts; InsertBroadcast body (Some "private")] /\
    (truthy (Some "") = true -> sb_title body = Some "") /\
    (truthy (Some "") = false -> sb_title body = None) /\
    sb_scheduledStartTime body = Some (u_now env_no_broadcasts + 300 * 1000) /\
    exists t, sb_scheduledStartTime body = Some t /\
              u_now env_no_broadcasts + 30 * 1000 <= t <= u_now env_no_broadcasts + 300 * 1000).
Proof.
  split.
  - apply (upsert_creates_on_empty Date_parse_iso env_no_broadcasts (Some "Launch") None "tok");
      reflexivity.
  - apply (upsert_creates_on_empty Date_parse_iso env_no_broadcasts (Some "") None "tok");
      reflexivity.
Defined.

(** Claim C9.  When the candidate broadcast exists (an id is given and
    [fromID] finds it), [updateBroadcastTitleDescription] issues the lookup
    and then one PUT and nothing else; the PUT's snippet holds exactly the
    title and description the caller supplied, and a [scheduledStartTime]
    five minutes after now if and only if the candidate had a scheduled start
    time. *)
Theorem updateBroadcast_partial_put (env : UpdateEnv) (id title description : option string)
    (cur : YouTubeLiveBroadcast) :
  truthy id = true -> v_fromID env = Ok (Some cur) ->
  exists body,
    trace (updateBroadcastTitleDescription env id title description)
      = [GetBroadcast (str_of id); PutBroadcast id body] /\
    sb_title body = title /\
    sb_description body = description /\
    (truthy (scheduledStartTime (snippet cur)) = true ->
     sb_scheduledStartTime body = Some (v_now env + FIVE_MINUTES_MS)) /\
    (truthy (scheduledStartTime (snippet cur)) = false ->
     sb_scheduledStartTime body = None).
Proof.
  intros Hid Hfrom. unfold updateBroadcastTitleDescription, fromID.
  rewrite Hid. simpl. rewrite Hfrom. simpl.
  destruct (v_put env); simpl;
    (eexists; split; [reflexivity|]; split; [reflexivity|]; split; [reflexivity|];
     split; simpl; intros H; rewrite H; reflexivity).
Qed.

Definition bc_scheduled : YouTubeLiveBroadcast :=
  mkBroadcast "b1" (mkSnippet "2024-01-01T00:00:00Z" "Old" "" (Some "2024-01-02T00:00:00Z")
                     None None) "ready".

Lemma updateBroadcast_partial_put_witness :
  let env := mkUpdateEnv 1700000000000 (Ok (Some bc_scheduled)) (Err "unused") (Ok tt) in
  exists body,
    trace (updateBroadcastTitleDescription env (Some "b1") (Some "New") None)
      = [GetBroadcast (str_of (Some "b1")); PutBroadcast (Some "b1") body] /\
    sb_title body = Some "New" /\
    sb_description body = None /\
    (truthy (scheduledStartTime (snippet bc_scheduled)) = true ->
     sb_scheduledStartTime body = Some (v_now env + FIVE_MINUTES_MS)) /\
    (truthy (scheduledStartTime (snippet bc_scheduled)) = false ->
     sb_scheduledStartTime body = None).
Proof.
  apply (updateBroadcast_partial_put
           (mkUpdateEnv 1700000000000 (Ok (Some bc_scheduled)) (Err "unused") (Ok tt))
           (Some "b1") (Some "New") None bc_scheduled); reflexivity.
Defined.

(** ** OAuth callback *)

(** X20.  The checks are made in order once the cookie header is parsed:
    without a code or with a bad state the handler answers 400 and calls
    nothing. *)
Lemma oauth_callback_rejects (env : CallbackEnv) (req : CallbackRequest)
    (cookies : list (jsstr * jsstr)) :
  parseCookies (h_cookie req) = Some cookies ->
  (js_truthy (q_code req) = false \/ js_truthy (q_state req) = false \/
   cookie_lookup (js "oauth_state") cookies <> q_state req) ->
  exists body, oauth_callback env req = ([], Ok (mkResponse 400 body)).
Proof.
  intros Hc Hbad. unfold oauth_callback. rewrite Hc. simpl.
  destruct (js_truthy (q_code req)) eqn:Hcode; simpl; [|eexists; reflexivity].
  destruct (js_truthy (q_state req)) eqn:Hst; simpl; [|eexists; reflexivity].
  destruct Hbad as [H|[H|H]]; try congruence.
  destruct (cookie_lookup (js "oauth_state") cookies) as [c|], (q_state req) as [s|];
    simpl; try (eexists; reflexivity).
  - unfold jseqb. destruct (list_eq_dec Z.eq_dec c s); [congruence|].
    simpl. eexists; reflexivity.
Qed.

(** X21.  The token exchange is issued only after a code, a state and a
    parsed cookie header whose [oauth_state] equals the state. *)
Lemma oauth_callback_exchange_guard (env : CallbackEnv) (req : CallbackRequest) (c : jsstr) :
  In (TokenExchange c) (trace (oauth_callback env req)) ->
  js_truthy (q_code req) = true /\
  exists cookies s, parseCookies (h_cookie req) = Some cookies /\
    q_state req = Some s /\ js_truthy (Some s) = true /\
    cookie_lookup (js "oauth_state") cookies = Some s.
Proof.
  unfold oauth_callback, requireEnv, trace.
  destruct (parseCookies (h_cookie req)) as [cookies|] eqn:Hc; simpl; [|tauto].
  destruct (js_truthy (q_code req)) eqn:Hcode; simpl; [|tauto].
  destruct (q_state req) as [s|] eqn:Hst; simpl; [|tauto].
  destruct s as [|x s']; simpl; [tauto|].
  destruct (cookie_lookup (js "oauth_state") cookies) as [v|] eqn:Hl; simpl; [|tauto].
  unfold jseqb. destruct (list_eq_dec Z.eq_dec v (x :: s')) as [->|]; simpl; [|tauto].
  intros _. split; [reflexivity|]. exists cookies, (x :: s'). auto.
Qed.

(** Claim C10 (a defect): the cookie header is decoded before the code and
    state are checked, and [decodeURIComponent] throws on a cookie such as
    ["theme=50%"].  A callback without [code] and [state] that carries this
    header therefore ends in an uncaught [URIError] (a 500 from the server)
    instead of the 400 answer. *)
Theorem oauth_callback_malformed_cookie :
  oauth_callback (mkCallbackEnv (Some "client") (Some "secret") (Ok tt))
                 (mkRequest None None (Some (js "theme=50%")))
  = ([], Err "URIError: URI malformed").
Proof. reflexivity. Qed.
(** ** URI decoding, encoding and cookies *)

Lemma decode_fuel_nil f : decode_fuel f [] = Some [].
Proof. destruct f; reflexivity. Qed.

(** One step of [decodeURIComponent] on a code unit other than ["%"]. *)
Lemma decode_fuel_other f c r : c <> 37 ->
  decode_fuel (S f) (c :: r) =
  match decode_fuel f r with Some d => Some (c :: d) | None => None end.
Proof.
  intros Hc. destruct c as [|p|p]; try reflexivity.
  repeat (destruct p as [p|p|]; try reflexivity).
  exfalso; apply Hc; reflexivity.
Qed.

Lemma decode_no_pct l : forall f, ~ In 37 l -> (length l <= f)%nat -> decode_fuel f l = Some l.
Proof.
  induction l as [|c r IH]; intros f Hn Hf; [apply decode_fuel_nil|].
  destruct f as [|f]; [simpl in Hf; lia|].
  rewrite decode_fuel_other by (intros ->; apply Hn; left; reflexivity).
  rewrite IH; [reflexivity| |simpl in Hf; lia].
  intros Hin. apply Hn. right. exact Hin.
Qed.

Lemma hexval_hexdigit n : 0 <= n < 16 -> hexval (hexdigit n) = Some n.
Proof.
  intros Hn. unfold hexdigit, hexval.
  destruct (Z.ltb_spec n 10); cbv beta iota;
    repeat match goal with |- context [?a <=? ?b] => destruct (Z.leb_spec a b) end;
    cbv beta iota; simpl andb; cbv beta iota; try (exfalso; lia); f_equal; lia.
Qed.

Lemma hexdigit_not_sep n : hexdigit n <> 59 /\ hexdigit n <> 61.
Proof. unfold hexdigit. destruct (Z.ltb_spec n 10); split; lia. Qed.

Lemma read_escape_pct o r : 0 <= o < 256 -> read_escape (pct o ++ r)%list = Some (o, r).
Proof.
  intros Ho. unfold pct. cbn -[hexdigit hexval Z.div Z.modulo Z.mul].
  rewrite !hexval_hexdigit by (Z.div_mod_to_equations; lia).
  f_equal. f_equal. Z.div_mod_to_equations. lia.
Qed.

(** [decodeURIComponent] reading one escaped octet. *)
Lemma decode_pct f o r : 0 <= o < 256 ->
  decode_fuel (S f) (pct o ++ r)%list =
  if o <? 128 then match decode_fuel f r with Some d => Some (o :: d) | None => None end
  else match utf8_len o with
       | Some n =>
           match read_conts (n - 1) r with
           | Some (conts, r') =>
               match utf8_code_point o conts with
               | Some cp =>
                   match decode_fuel f r' with
                   | Some d => Some (utf16_encode cp ++ d)%list
                   | None => None
                   end
               | None => None
               end
           | None => None
           end
       | None => None
       end.
Proof.
  intros Ho. unfold pct at 1. cbn -[read_escape hexdigit Z.div Z.modulo].
  change (37 :: hexdigit (o / 16) :: hexdigit (o mod 16) :: r) with (pct o ++ r)%list.
  rewrite read_escape_pct by exact Ho. reflexivity.
Qed.

Lemma forall_range (P : Z -> bool) (n : nat) :
  forallb P (map Z.of_nat (seq 0 n)) = true -> forall x, 0 <= x < Z.of_nat n -> P x = true.
Proof.
  intros H x Hx. rewrite forallb_forall in H. apply H. apply in_map_iff.
  exists (Z.to_nat x). split; [lia|]. apply in_seq. lia.
Qed.

(** The masks [decodeURIComponent] applies to an octet. *)
Lemma land_octet o : 0 <= o < 256 ->
  Z.land o 192 = o - o mod 64 /\ Z.land o 224 = o - o mod 32 /\
  Z.land o 240 = o - o mod 16 /\ Z.land o 248 = o - o mod 8 /\
  Z.land o 63 = o mod 64 /\ Z.land o 31 = o mod 32 /\
  Z.land o 15 = o mod 16 /\ Z.land o 7 = o mod 8.
Proof.
  intros Ho.
  pose proof (forall_range
    (fun o => (Z.land o 192 =? o - o mod 64) && (Z.land o 224 =? o - o mod 32)
              && (Z.land o 240 =? o - o mod 16) && (Z.land o 248 =? o - o mod 8)
              && (Z.land o 63 =? o mod 64) && (Z.land o 31 =? o mod 32)
              && (Z.land o 15 =? o mod 16) && (Z.land o 7 =? o mod 8)) 256
    ltac:(vm_compute; reflexivity) o Ho) as H.
  rewrite !andb_true_iff, !Z.eqb_eq in H. tauto.
Qed.

Lemma read_conts_pct os r : Forall (fun o => 128 <= o < 192) os ->
  read_conts (length os) (flat_map pct os ++ r)%list = Some (os, r).
Proof.
  induction os as [|o os IH]; intros Hf; [reflexivity|].
  inversion Hf as [|? ? Ho Hos]; subst.
  cbn [length read_conts flat_map]. rewrite <- app_assoc, read_escape_pct by lia.
  destruct (land_octet o ltac:(lia)) as (H192 & _). rewrite H192.
  replace (o - o mod 64 =? 128) with true
    by (symmetry; apply Z.eqb_eq; Z.div_mod_to_equations; lia).
  rewrite IH by exact Hos. reflexivity.
Qed.

(** [decodeURIComponent] reading the escaped UTF-8 octets of one code point. *)
Lemma decode_escape f cp r : 0 <= cp <= 1114111 -> ~ (55296 <= cp <= 57343) ->
  decode_fuel (S f) (escape_code_point cp ++ r)%list =
  match decode_fuel f r with Some d => Some (utf16_encode cp ++ d)%list | None => None end.
Proof.
  intros Hcp Hs. unfold escape_code_point, utf8_encode.
  destruct (Z.ltb_spec cp 128) as [H1|H1]; [|destruct (Z.ltb_spec cp 2048) as [H2|H2];
    [|destruct (Z.ltb_spec cp 65536) as [H3|H3]]].
  - cbn [flat_map]. rewrite app_nil_r, decode_pct by lia.
    replace (cp <? 128) with true by (symmetry; apply Z.ltb_lt; lia).
    unfold utf16_encode. replace (cp <? 65536) with true by (symmetry; apply Z.ltb_lt; lia).
    reflexivity.
  - set (lead := 192 + cp / 64). set (c1 := 128 + cp mod 64).
    change (flat_map pct [lead; c1]) with (pct lead ++ flat_map pct [c1])%list.
    rewrite <- app_assoc, decode_pct by (subst lead; Z.div_mod_to_equations; lia).
    replace (lead <? 128) with false by (symmetry; apply Z.ltb_ge; subst lead; Z.div_mod_to_equations; lia).
    destruct (land_octet lead ltac:(subst lead; Z.div_mod_to_equations; lia))
      as (_ & L224 & _ & _ & _ & L31 & _ & _).
    destruct (land_octet c1 ltac:(subst c1; Z.div_mod_to_equations; lia))
      as (_ & _ & _ & _ & M63 & _ & _ & _).
    unfold utf8_len. rewrite L224.
    replace (lead - lead mod 32 =? 192) with true
      by (symmetry; apply Z.eqb_eq; subst lead; Z.div_mod_to_equations; lia).
    change (2 - 1)%nat with (length [c1]).
    rewrite read_conts_pct by (constructor; [subst c1; Z.div_mod_to_equations; lia|constructor]).
    unfold utf8_code_point. cbn [fold_left]. rewrite L31, M63.
    replace (lead mod 32 * 64 + (0 * 64 + c1 mod 64)) with cp
      by (subst lead c1; Z.div_mod_to_equations; lia).
    replace (128 <=? cp) with true by (symmetry; apply Z.leb_le; lia).
    unfold utf16_encode. replace (cp <? 65536) with true by (symmetry; apply Z.ltb_lt; lia).
    reflexivity.
  - set (lead := 224 + cp / 4096). set (c1 := 128 + (cp / 64) mod 64).
    set (c2 := 128 + cp mod 64).
    change (flat_map pct [lead; c1; c2]) with (pct lead ++ flat_map pct [c1; c2])%list.
    rewrite <- app_assoc, decode_pct by (subst lead; Z.div_mod_to_equations; lia).
    replace (lead <? 128) with false by (symmetry; apply Z.ltb_ge; subst lead; Z.div_mod_to_equations; lia).
    destruct (land_octet lead ltac:(subst lead; Z.div_mod_to_equations; lia))
      as (_ & L224 & L240 & _ & _ & _ & L15 & _).
    destruct (land_octet c1 ltac:(subst c1; Z.div_mod_to_equations; lia))
      as (_ & _ & _ & _ & M1 & _ & _ & _).
    destruct (land_octet c2 ltac:(subst c2; Z.div_mod_to_equations; lia))
      as (_ & _ & _ & _ & M2 & _ & _ & _).
    unfold utf8_len. rewrite L224, L240.
    replace (lead - lead mod 32 =? 192) with false
      by (symmetry; apply Z.eqb_neq; subst lead; Z.div_mod_to_equations; lia).
    replace (lead - lead mod 16 =? 224) with true
      by (symmetry; apply Z.eqb_eq; subst lead; Z.div_mod_to_equations; lia).
    change (3 - 1)%nat with (length [c1; c2]).
    rewrite read_conts_pct
      by (repeat constructor; subst c1 c2; Z.div_mod_to_equations; lia).
    unfold utf8_code_point. cbn [fold_left]. rewrite L15, M1, M2.
    replace (lead mod 16 * 4096 + ((0 * 64 + c1 mod 64) * 64 + c2 mod 64)) with cp
      by (subst lead c1 c2; Z.div_mod_to_equations; lia).
    replace ((2048 <=? cp) && negb ((55296 <=? cp) && (cp <=? 57343))) with true
      by (symmetry; destruct (Z.leb_spec 2048 cp), (Z.leb_spec 55296 cp), (Z.leb_spec cp 57343);
          simpl; lia).
    unfold utf16_encode. replace (cp <? 65536) with true by (symmetry; apply Z.ltb_lt; lia).
    reflexivity.
  - set (lead := 240 + cp / 262144). set (c1 := 128 + (cp / 4096) mod 64).
    set (c2 := 128 + (cp / 64) mod 64). set (c3 := 128 + cp mod 64).
    change (flat_map pct [lead; c1; c2; c3]) with (pct lead ++ flat_map pct [c1; c2; c3])%list.
    rewrite <- app_assoc, decode_pct by (subst lead; Z.div_mod_to_equations; lia).
    replace (lead <? 128) with false by (symmetry; apply Z.ltb_ge; subst lead; Z.div_mod_to_equations; lia).
    destruct (land_octet lead ltac:(subst lead; Z.div_mod_to_equations; lia))
      as (_ & L224 & L240 & L248 & _ & _ & _ & L7).
    destruct (land_octet c1 ltac:(subst c1; Z.div_mod_to_equations; lia))
      as (_ & _ & _ & _ & M1 & _ & _ & _).
    destruct (land_octet c2 ltac:(subst c2; Z.div_mod_to_equations; lia))
      as (_ & _ & _ & _ & M2 & _ & _ & _).
    destruct (land_octet c3 ltac:(subst c3; Z.div_mod_to_equations; lia))
      as (_ & _ & _ & _ & M3 & _ & _ & _).
    unfold utf8_len. rewrite L224, L240, L248.
    replace (lead - lead mod 32 =? 192) with false
      by (symmetry; apply Z.eqb_neq; subst lead; Z.div_mod_to_equations; lia).
    replace (lead - lead mod 16 =? 224) with false
      by (symmetry; apply Z.eqb_neq; subst lead; Z.div_mod_to_equations; lia).
    replace (lead - lead mod 8 =? 240) with true
      by (symmetry; apply Z.eqb_eq; subst lead; Z.div_mod_to_equations; lia).
    change (4 - 1)%nat with (length [c1; c2; c3]).
    rewrite read_conts_pct
      by (repeat constructor; subst c1 c2 c3; Z.div_mod_to_equations; lia).
    unfold utf8_code_point. cbn [fold_left]. rewrite L7, M1, M2, M3.
    replace (lead mod 8 * 262144 + (((0 * 64 + c1 mod 64) * 64 + c2 mod 64) * 64 + c3 mod 64))
      with cp by (subst lead c1 c2 c3; Z.div_mod_to_equations; lia).
    replace ((65536 <=? cp) && (cp <=? 1114111)) with true
      by (symmetry; destruct (Z.leb_spec 65536 cp), (Z.leb_spec cp 1114111); simpl; lia).
    reflexivity.
Qed.

Lemma escape_length cp : (3 <= length (escape_code_point cp))%nat.
Proof.
  unfold escape_code_point, utf8_encode.
  destruct (cp <? 128); [simpl; lia|]. destruct (cp <? 2048); [simpl; lia|].
  destruct (cp <? 65536); simpl; lia.
Qed.

Lemma decode_encode_fuel n : forall s e f, (length s <= n)%nat ->
  Forall (fun c => 0 <= c <= 65535) s -> encodeURIComponent s = Some e ->
  (length e <= f)%nat -> decode_fuel f e = Some s.
Proof.
  induction n as [|n IH]; intros s e f Hlen Hcu Henc Hf.
  - destruct s; [|simpl in Hlen; lia].
    inversion Henc; subst. apply decode_fuel_nil.
  - destruct s as [|c r]; [inversion Henc; subst; apply decode_fuel_nil|].
    inversion Hcu as [|? ? Hc Hr]; subst.
    cbn [encodeURIComponent] in Henc. simpl in Hlen.
    destruct (uri_unreserved c) eqn:Hu.
    + destruct (encodeURIComponent r) as [e'|] eqn:He'; [|discriminate].
      inversion Henc; subst.
      destruct f as [|f]; [simpl in Hf; lia|].
      rewrite decode_fuel_other by (intros ->; discriminate Hu).
      rewrite (IH r e' f); [reflexivity|lia|exact Hr|exact He'|simpl in Hf; lia].
    + destruct ((55296 <=? c) && (c <=? 56319)) eqn:Hhi.
      * destruct r as [|c2 r']; [discriminate|].
        destruct ((56320 <=? c2) && (c2 <=? 57343)) eqn:Hlo; [|discriminate].
        destruct (encodeURIComponent r') as [e'|] eqn:He'; [|discriminate].
        inversion Henc; subst.
        inversion Hr as [|? ? Hc2 Hr']; subst.
        apply andb_true_iff in Hhi, Hlo.
        destruct Hhi as [Hhi1 Hhi2], Hlo as [Hlo1 Hlo2].
        apply Z.leb_le in Hhi1, Hhi2, Hlo1, Hlo2.
        rewrite length_app in Hf. pose proof (escape_length
          ((c - 55296) * 1024 + (c2 - 56320) + 65536)) as Hel.
        destruct f as [|f]; [lia|].
        rewrite decode_escape by lia.
        rewrite (IH r' e' f); [|simpl in Hlen; lia|exact Hr'|exact He'|lia].
        unfold utf16_encode.
        replace ((c - 55296) * 1024 + (c2 - 56320) + 65536 <? 65536) with false
          by (symmetry; apply Z.ltb_ge; lia).
        replace (55296 + ((c - 55296) * 1024 + (c2 - 56320) + 65536 - 65536) / 1024) with c
          by (Z.div_mod_to_equations; lia).
        replace (56320 + ((c - 55296) * 1024 + (c2 - 56320) + 65536 - 65536) mod 1024) with c2
          by (Z.div_mod_to_equations; lia).
        reflexivity.
      * destruct ((56320 <=? c) && (c <=? 57343)) eqn:Hlo; [discriminate|].
        destruct (encodeURIComponent r) as [e'|] eqn:He'; [|discriminate].
        inversion Henc; subst.
        rewrite length_app in Hf. pose proof (escape_length c) as Hel.
        destruct f as [|f]; [lia|].
        assert (Hns : ~ (55296 <= c <= 57343)).
        { intros [Ha Hb]. destruct (Z_le_gt_dec c 56319).
          - assert (Hx : (55296 <=? c) && (c <=? 56319) = true)
              by (apply andb_true_iff; split; apply Z.leb_le; lia). congruence.
          - assert (Hx : (56320 <=? c) && (c <=? 57343) = true)
              by (apply andb_true_iff; split; apply Z.leb_le; lia). congruence. }
        rewrite decode_escape by lia.
        rewrite (IH r e' f); [|lia|exact Hr|exact He'|lia].
        unfold utf16_encode. replace (c <? 65536) with true by (symmetry; apply Z.ltb_lt; lia).
        reflexivity.
Qed.

Lemma decode_encode s e : Forall (fun c => 0 <= c <= 65535) s ->
  encodeURIComponent s = Some e -> decodeURIComponent e = Some s.
Proof.
  intros Hcu He. unfold decodeURIComponent.
  apply (decode_encode_fuel (length s) s e); auto.
Qed.

(** The output of [encodeURIComponent] holds neither [";"] nor ["="]. *)
Lemma encode_no_sep n : forall s e, (length s <= n)%nat -> encodeURIComponent s = Some e ->
  forall x, In x e -> x <> 59 /\ x <> 61.
Proof.
  assert (Hesc : forall cp x, In x (escape_code_point cp) -> x <> 59 /\ x <> 61).
  { intros cp x Hx. unfold escape_code_point in Hx. apply in_flat_map in Hx.
    destruct Hx as (o & _ & Hx). unfold pct in Hx.
    destruct Hx as [<- | [<- | [<- | []]]]; [split; discriminate| |];
      apply hexdigit_not_sep. }
  induction n as [|n IH]; intros s e Hlen Henc x Hx.
  - destruct s; [|simpl in Hlen; lia]. inversion Henc; subst. destruct Hx.
  - destruct s as [|c r]; [inversion Henc; subst; destruct Hx|].
    cbn [encodeURIComponent] in Henc. simpl in Hlen.
    destruct (uri_unreserved c) eqn:Hu.
    + destruct (encodeURIComponent r) as [e'|] eqn:He'; [|discriminate].
      inversion Henc; subst. destruct Hx as [<- | Hx].
      * split; intros ->; discriminate Hu.
      * exact (IH r e' ltac:(lia) He' x Hx).
    + destruct ((55296 <=? c) && (c <=? 56319)).
      * destruct r as [|c2 r']; [discriminate|].
        destruct ((56320 <=? c2) && (c2 <=? 57343)); [|discriminate].
        destruct (encodeURIComponent r') as [e'|] eqn:He'; [|discriminate].
        inversion Henc; subst. apply in_app_or in Hx. destruct Hx as [Hx|Hx].
        -- exact (Hesc _ x Hx).
        -- simpl in Hlen. exact (IH r' e' ltac:(lia) He' x Hx).
      * destruct ((56320 <=? c) && (c <=? 57343)); [discriminate|].
        destruct (encodeURIComponent r) as [e'|] eqn:He'; [|discriminate].
        inversion Henc; subst. apply in_app_or in Hx. destruct Hx as [Hx|Hx].
        -- exact (Hesc _ x Hx).
        -- exact (IH r e' ltac:(lia) He' x Hx).
Qed.

Lemma split_cookies_fuel_other f c r cur : c <> 59 ->
  split_cookies_fuel (S f) (c :: r) cur = split_cookies_fuel f r (c :: cur).
Proof.
  intros Hc. destruct c as [|p|p]; try reflexivity.
  repeat (destruct p as [p|p|]; try reflexivity).
  exfalso; apply Hc; reflexivity.
Qed.

Lemma split_cookies_no_semi l : forall f cur, (forall x, In x l -> x <> 59) ->
  (length l <= f)%nat -> split_cookies_fuel f l cur = [(rev cur ++ l)%list].
Proof.
  induction l as [|c r IH]; intros f cur Hn Hf.
  - destruct f; simpl; rewrite ?app_nil_r; reflexivity.
  - destruct f as [|f]; [simpl in Hf; lia|].
    rewrite split_cookies_fuel_other by (apply Hn; left; reflexivity).
    rewrite IH; [|intros x Hx; apply Hn; right; exact Hx|simpl in Hf; lia].
    simpl. rewrite <- app_assoc. reflexivity.
Qed.

Lemma split_eq_other c r : c <> 61 ->
  split_eq (c :: r) = let (k, v) := split_eq r in (c :: k, v).
Proof.
  intros Hc. destruct c as [|p|p]; try reflexivity.
  repeat (destruct p as [p|p|]; try reflexivity).
  exfalso; apply Hc; reflexivity.
Qed.

Lemma split_eq_app k v : (forall x, In x k -> x <> 61) -> split_eq (k ++ 61 :: v)%list = (k, v).
Proof.
  induction k as [|c k IH]; intros Hn; [reflexivity|].
  cbn [app]. rewrite split_eq_other by (apply Hn; left; reflexivity).
  rewrite IH by (intros x Hx; apply Hn; right; exact Hx). reflexivity.
Qed.

(** The cookie header ["name=value"] with both sides encoded reads back as
    the one cookie [name = value]. *)
Lemma jseqb_neq a b : a <> b -> jseqb a b = false.
Proof. unfold jseqb. destruct (list_eq_dec Z.eq_dec a b); [contradiction|reflexivity]. Qed.

Lemma parse_encoded_pair name value n v :
  name <> [] -> name <> js "__proto__" ->
  Forall (fun c => 0 <= c <= 65535) name -> Forall (fun c => 0 <= c <= 65535) value ->
  encodeURIComponent name = Some n -> encodeURIComponent value = Some v ->
  parseCookies (Some (n ++ 61 :: v)%list) = Some [(name, value)].
Proof.
  intros Hne Hpr Hcn Hcv Hn Hv.
  pose proof (decode_encode name n Hcn Hn) as Dn.
  pose proof (decode_encode value v Hcv Hv) as Dv.
  pose proof (encode_no_sep _ name n (le_n _) Hn) as Sn.
  pose proof (encode_no_sep _ value v (le_n _) Hv) as Sv.
  unfold parseCookies.
  replace (js_truthy (Some (n ++ 61 :: v)%list)) with true by (destruct n; reflexivity).
  unfold split_cookies. rewrite split_cookies_no_semi; [|intros y Hy| lia].
  2:{ apply in_app_or in Hy. destruct Hy as [Hy|[<- | Hy]];
      [exact (proj1 (Sn y Hy))|discriminate|exact (proj1 (Sv y Hy))]. }
  cbn [rev app parse_parts].
  rewrite split_eq_app by (intros y Hy; exact (proj2 (Sn y Hy))).
  destruct n as [|x n'] eqn:En.
  - unfold decodeURIComponent in Dn. simpl in Dn. inversion Dn. congruence.
  - cbv beta iota. rewrite Dn, Dv, (jseqb_neq _ _ Hpr). reflexivity.
Qed.

Lemma read_escape_inv l b r : read_escape l = Some (b, r) ->
  exists h1 h2, l = 37 :: h1 :: h2 :: r /\ hexval h1 <> None /\ hexval h2 <> None.
Proof.
  unfold read_escape. intros H.
  destruct l as [|x [|h1 [|h2 r0]]]; cbn in H; try discriminate H;
    destruct x as [|p|p]; cbn in H; try discriminate H;
    repeat (destruct p as [p|p|]; cbn in H; try discriminate H).
  destruct (hexval h1) eqn:E1, (hexval h2) eqn:E2; try discriminate H.
  inversion H; subst. exists h1, h2. split; [reflexivity|]. rewrite E1, E2. split; discriminate.
Qed.

Lemma read_escape_app37 l b r : read_escape (l ++ [37])%list = Some (b, r) ->
  exists r0, r = (r0 ++ [37])%list /\ (length r0 < length l)%nat.
Proof.
  intros H. apply read_escape_inv in H. destruct H as (h1 & h2 & Hl & H1 & H2).
  destruct l as [|a [|a1 [|a2 l']]]; simpl in Hl; inversion Hl; subst.
  - contradiction H2. reflexivity.
  - exists l'. split; [reflexivity|]. simpl. lia.
Qed.

Lemma read_conts_app37 k : forall l os r, read_conts k (l ++ [37])%list = Some (os, r) ->
  exists r0, r = (r0 ++ [37])%list /\ (length r0 <= length l)%nat.
Proof.
  induction k as [|k IH]; intros l os r H.
  - inversion H; subst. exists l. split; [reflexivity|lia].
  - cbn [read_conts] in H.
    destruct (read_escape (l ++ [37])%list) as [[o r1]|] eqn:He; [|discriminate].
    destruct (Z.land o 192 =? 128); [|discriminate].
    apply read_escape_app37 in He. destruct He as (r0 & -> & Hlen).
    destruct (read_conts k (r0 ++ [37])%list) as [[os' r']|] eqn:Hc; [|discriminate].
    inversion H; subst. apply IH in Hc. destruct Hc as (r2 & -> & Hlen2).
    exists r2. split; [reflexivity|lia].
Qed.

Lemma decode_trailing_pct n : forall l f, (length l <= n)%nat ->
  decode_fuel f (l ++ [37])%list = None.
Proof.
  induction n as [|n IH]; intros l f Hlen.
  - destruct l; [|simpl in Hlen; lia]. destruct f; reflexivity.
  - destruct f as [|f]; [destruct l; reflexivity|].
    destruct l as [|c r]; [reflexivity|].
    simpl in Hlen. destruct (Z.eq_dec c 37) as [->|Hc].
    + change ((37 :: r) ++ [37])%list with (37 :: (r ++ [37]))%list.
      cbn [decode_fuel].
      change (37 :: (r ++ [37]))%list with ((37 :: r) ++ [37])%list.
      destruct (read_escape ((37 :: r) ++ [37])%list) as [[b r1]|] eqn:He; [|reflexivity].
      apply read_escape_app37 in He. destruct He as (r0 & -> & Hl0). simpl in Hl0.
      destruct (b <? 128).
      * rewrite (IH r0 f) by lia. reflexivity.
      * destruct (utf8_len b) as [k|]; [|reflexivity].
        destruct (read_conts (k - 1) (r0 ++ [37])%list) as [[conts r']|] eqn:Hc;
          [|reflexivity].
        apply read_conts_app37 in Hc. destruct Hc as (r2 & -> & Hl2).
        destruct (utf8_code_point b conts); [|reflexivity].
        rewrite (IH r2 f) by lia. reflexivity.
    + change ((c :: r) ++ [37])%list with (c :: (r ++ [37]))%list.
      rewrite decode_fuel_other by exact Hc.
      rewrite (IH r f) by lia. reflexivity.
Qed.

Lemma drop_spaces_sub l x : In x (drop_spaces l) -> In x l.
Proof.
  induction l as [|c r IH]; simpl; [tauto|].
  destruct (is_js_space c); simpl; auto.
Qed.

Lemma split_cookies_sub f : forall l cur part x,
  In part (split_cookies_fuel f l cur) -> In x part -> In x l \/ In x cur.
Proof.
  induction f as [|f IH]; intros l cur part x Hp Hx.
  - destruct Hp as [<- | []]. apply in_app_or in Hx.
    destruct Hx as [Hx|Hx]; [right; apply in_rev; exact Hx|left; exact Hx].
  - destruct l as [|c r].
    + destruct Hp as [<- | []]. right. apply in_rev. exact Hx.
    + destruct (Z.eq_dec c 59) as [->|Hc].
      * destruct Hp as [<- | Hp].
        -- right. apply in_rev. exact Hx.
        -- destruct (IH _ _ _ _ Hp Hx) as [H|[]].
           left. right. apply drop_spaces_sub. exact H.
      * rewrite split_cookies_fuel_other in Hp by exact Hc.
        destruct (IH _ _ _ _ Hp Hx) as [H|[<- | H]].
        -- left. right. exact H.
        -- left. left. reflexivity.
        -- right. exact H.
Qed.

Lemma split_eq_sub part : forall k v, split_eq part = (k, v) ->
  (forall x, In x k -> In x part) /\ (forall x, In x v -> In x part).
Proof.
  induction part as [|c r IH]; intros k v H.
  - inversion H; subst. split; intros x [].
  - destruct (Z.eq_dec c 61) as [->|Hc].
    + inversion H; subst. split; [intros x []|intros x Hx; right; exact Hx].
    + rewrite split_eq_other in H by exact Hc.
      destruct (split_eq r) as [k' v'] eqn:E. inversion H; subst.
      destruct (IH _ _ eq_refl) as [Hk Hv]. split.
      * intros x [<- | Hx]; [left; reflexivity|right; apply Hk; exact Hx].
      * intros x Hx. right. apply Hv. exact Hx.
Qed.

Lemma parse_parts_no_pct parts : forall out,
  (forall part, In part parts -> ~ In 37 part) -> exists cs, parse_parts parts out = Some cs.
Proof.
  induction parts as [|p ps IH]; intros out Hn; [eexists; reflexivity|].
  cbn [parse_parts]. destruct (split_eq p) as [k v] eqn:E.
  destruct (split_eq_sub p k v E) as [Hk Hv].
  assert (Hp : ~ In 37 p) by (apply Hn; left; reflexivity).
  assert (Hps : forall part, In part ps -> ~ In 37 part)
    by (intros q Hq; apply Hn; right; exact Hq).
  destruct k as [|x k'].
  - apply IH. exact Hps.
  - unfold decodeURIComponent.
    rewrite (decode_no_pct (x :: k')) by (auto || (intros H; apply Hp; apply Hk; exact H)).
    rewrite (decode_no_pct v) by (auto || (intros H; apply Hp; apply Hv; exact H)).
    destruct (jseqb _ _); apply IH; exact Hps.
Qed.

Lemma parseCookies_no_pct h : ~ In 37 h -> exists cs, parseCookies (Some h) = Some cs.
Proof.
  intros Hn. unfold parseCookies. destruct (js_truthy (Some h)); [|eexists; reflexivity].
  apply parse_parts_no_pct. intros part Hp Hin.
  destruct (split_cookies_sub _ _ _ _ _ Hp Hin) as [H|[]]. exact (Hn H).
Qed.

Lemma code_units_check (l : jsstr) :
  forallb (fun c => (0 <=? c) && (c <=? 65535)) l = true -> Forall (fun c => 0 <= c <= 65535) l.
Proof.
  intros H. apply Forall_forall. intros x Hx. rewrite forallb_forall in H.
  specialize (H x Hx). apply andb_true_iff in H. destruct H as [H1 H2].
  apply Z.leb_le in H1. apply Z.leb_le in H2. lia.
Qed.

Lemma cookie_pair_no_semi x : (forall c, In c x -> c <> 59) -> cookie_pair x = x.
Proof.
  induction x as [|c r IH]; intros Hn; [reflexivity|].
  simpl. replace (c =? 59) with false by (symmetry; apply Z.eqb_neq; apply Hn; left; reflexivity).
  rewrite IH by (intros y Hy; apply Hn; right; exact Hy). reflexivity.
Qed.

Lemma cookie_pair_app x y : (forall c, In c x -> c <> 59) -> cookie_pair (x ++ 59 :: y)%list = x.
Proof.
  induction x as [|c r IH]; intros Hn; [reflexivity|].
  simpl. replace (c =? 59) with false by (symmetry; apply Z.eqb_neq; apply Hn; left; reflexivity).
  rewrite IH by (intros z Hz; apply Hn; right; exact Hz). reflexivity.
Qed.

Lemma jseqb_refl s : jseqb s s = true.
Proof. unfold jseqb. destruct (list_eq_dec Z.eq_dec s s); [reflexivity|congruence]. Qed.

(** X12.  [decodeURIComponent] returns a string without ["%"] unchanged. *)
Theorem decodeURIComponent_no_percent (s : jsstr) :
  ~ In 37 s -> decodeURIComponent s = Some s.
Proof. intros Hn. apply decode_no_pct; [exact Hn|lia]. Qed.

Lemma decodeURIComponent_no_percent_witness :
  decodeURIComponent (js "theme=dark") = Some (js "theme=dark").
Proof. apply decodeURIComponent_no_percent. simpl. intuition discriminate. Defined.

(** X13.  [decodeURIComponent] throws on every string that ends in ["%"]. *)
Theorem decodeURIComponent_trailing_percent (s : jsstr) :
  decodeURIComponent (s ++ [37])%list = None.
Proof. apply (decode_trailing_pct (length s)). lia. Qed.

(** X14.  [decodeURIComponent] inverts [encodeURIComponent]: whenever the
    encoding of a string of code units succeeds, decoding it gives the
    string back. *)
Theorem decodeURIComponent_encodeURIComponent (s e : jsstr) :
  Forall (fun c => 0 <= c <= 65535) s -> encodeURIComponent s = Some e ->
  decodeURIComponent e = Some s.
Proof. apply decode_encode. Qed.

Lemma decodeURIComponent_encodeURIComponent_witness :
  let s := [104; 233; 59; 8364; 55357; 56832] in
  Forall (fun c => 0 <= c <= 65535) s /\
  encodeURIComponent s =
    Some [104; 37; 67; 51; 37; 65; 57; 37; 51; 66; 37; 69; 50; 37; 56; 50; 37; 65; 67;
          37; 70; 48; 37; 57; 70; 37; 57; 56; 37; 56; 48] /\
  decodeURIComponent [104; 37; 67; 51; 37; 65; 57; 37; 51; 66; 37; 69; 50; 37; 56; 50;
                      37; 65; 67; 37; 70; 48; 37; 57; 70; 37; 57; 56; 37; 56; 48]
    = Some s.
Proof.
  assert (Hs : Forall (fun c => 0 <= c <= 65535) [104; 233; 59; 8364; 55357; 56832])
    by (apply code_units_check; reflexivity).
  split; [exact Hs|]. split; [reflexivity|].
  apply decodeURIComponent_encodeURIComponent; [exact Hs|reflexivity].
Defined.

(** X15.  A cookie written by [setCookie] (without attributes) is read back
    by [parseCookies] as exactly that one name and value, whatever code units
    they hold, for any name other than ["__proto__"] (which the cookie object
    cannot hold as an own entry). *)
Theorem parseCookies_setCookie (name value h : jsstr) :
  name <> [] -> name <> js "__proto__" ->
  Forall (fun c => 0 <= c <= 65535) name -> Forall (fun c => 0 <= c <= 65535) value ->
  setCookie name value [] = Some h ->
  parseCookies (Some h) = Some [(name, value)].
Proof.
  intros Hne Hpr Hcn Hcv Hset. unfold setCookie in Hset. cbn [map join] in Hset.
  destruct (encodeURIComponent name) as [n|] eqn:En; [|discriminate].
  destruct (encodeURIComponent value) as [v|] eqn:Ev; [|discriminate].
  inversion Hset; subst. rewrite !app_nil_r.
  apply parse_encoded_pair; assumption.
Qed.

Lemma parseCookies_setCookie_witness :
  let name := js "oauth_state" in
  let value := [97; 32; 59; 61; 37; 233] in
  setCookie name value [] = Some (js "oauth_state=a%20%3B%3D%25%C3%A9") /\
  parseCookies (Some (js "oauth_state=a%20%3B%3D%25%C3%A9")) = Some [(name, value)].
Proof.
  split; [reflexivity|].
  apply parseCookies_setCookie; [discriminate|discriminate| | |reflexivity];
    apply code_units_check; reflexivity.
Defined.

(** X16.  The login and callback routes fit together: when the login route
    answers with its redirect and state cookie, a browser that sends that
    cookie's name-value pair back with the same state and a non-empty code
    passes the callback's checks, and the callback's first call is the token
    exchange for that code (given the client secret is set). *)
Theorem oauth_login_then_callback (env : CallbackEnv) (state code : jsstr) (lr : LoginResponse) :
  Forall (fun c => 0 <= c <= 65535) state -> state <> [] -> code <> [] ->
  truthy (GOOGLE_OAUTH_CLIENT_SECRET env) = true ->
  outcome (oauth_login env state) = Ok lr ->
  login_status lr = 302 /\
  exists rest,
    trace (oauth_callback env
             (mkRequest (Some code) (Some state) (Some (cookie_pair (login_set_cookie lr)))))
    = TokenExchange code :: rest.
Proof.
  intros Hcu Hs Hc Hsec Hlogin.
  unfold oauth_login, requireEnv, outcome in Hlogin.
  destruct (truthy (GOOGLE_OAUTH_CLIENT_ID env)) eqn:Hid; [|discriminate].
  unfold setCookie in Hlogin.
  replace (encodeURIComponent (js "oauth_state")) with (Some (js "oauth_state"))
    in Hlogin by reflexivity.
  destruct (encodeURIComponent state) as [v|] eqn:Ev; [|discriminate].
  assert (Hlr : lr = mkLoginResponse 302
            ((js "oauth_state" ++ 61 :: v) ++ 59 :: js " HttpOnly; Path=/; SameSite=Lax")%list).
  { simpl in Hlogin. injection Hlogin as <-. simpl. reflexivity. }
  subst lr; clear Hlogin.
  split; [reflexivity|]. cbn [login_set_cookie].
  pose proof (encode_no_sep _ state v (le_n _) Ev) as Sv.
  rewrite cookie_pair_app.
  2:{ intros c Hin. apply in_app_or in Hin. destruct Hin as [Hin|[<- | Hin]].
      - simpl in Hin. intuition (subst; discriminate).
      - discriminate.
      - exact (proj1 (Sv c Hin)). }
  unfold oauth_callback. cbn [h_cookie q_code q_state].
  erewrite (parse_encoded_pair (js "oauth_state") state _ v);
    [| discriminate | discriminate | apply code_units_check; reflexivity | exact Hcu
     | reflexivity | exact Ev].
  destruct code as [|c0 code']; [contradiction|].
  destruct state as [|s0 state']; [contradiction|].
  cbn [mbind mret js_truthy negb orb cookie_lookup].
  rewrite jseqb_refl. replace (jseqb (js "oauth_state") (js "oauth_state")) with true
    by reflexivity.
  cbn. unfold requireEnv. rewrite Hid, Hsec. cbn.
  rewrite ?jseqb_refl. cbn.
  destruct (token_resp env); eexists; reflexivity.
Qed.

Lemma oauth_login_then_callback_witness :
  let env := mkCallbackEnv (Some "client") (Some "secret") (Ok tt) in
  let state := js "3f2a9c1e-0b7d-4e55-9a61-5c2d8e4f7a10" in
  login_status (mkLoginResponse 302 (js "oauth_state=3f2a9c1e-0b7d-4e55-9a61-5c2d8e4f7a10; HttpOnly; Path=/; SameSite=Lax")) = 302 /\
  exists rest,
    trace (oauth_callback env
             (mkRequest (Some (js "4/0AX")) (Some state)
                (Some (cookie_pair (js "oauth_state=3f2a9c1e-0b7d-4e55-9a61-5c2d8e4f7a10; HttpOnly; Path=/; SameSite=Lax")))))
    = TokenExchange (js "4/0AX") :: rest.
Proof.
  apply (oauth_login_then_callback (mkCallbackEnv (Some "client") (Some "secret") (Ok tt))
           (js "3f2a9c1e-0b7d-4e55-9a61-5c2d8e4f7a10") (js "4/0AX")).
  - apply code_units_check; reflexivity.
  - discriminate.
  - discriminate.
  - reflexivity.
  - vm_compute. reflexivity.
Defined.

(** X17.  [parseCookies] never throws on a header without ["%"]. *)
Theorem parseCookies_percent_free (h : jsstr) :
  ~ In 37 h -> exists cookies, parseCookies (Some h) = Some cookies.
Proof. apply parseCookies_no_pct. Qed.

Lemma parseCookies_percent_free_witness :
  exists cookies, parseCookies (Some (js "a=1;  theme=dark; =x; b")) = Some cookies.
Proof. apply parseCookies_percent_free. simpl. intuition discriminate. Defined.

(** X19.  With a code and a matching state, a missing or empty
    [GOOGLE_OAUTH_CLIENT_ID] or [GOOGLE_OAUTH_CLIENT_SECRET] makes the
    callback throw "Missing required env" before it calls anything. *)
Theorem oauth_callback_missing_env (env : CallbackEnv) (req : CallbackRequest)
    (cookies : list (jsstr * jsstr)) (s : jsstr) :
  parseCookies (h_cookie req) = Some cookies -> js_truthy (q_code req) = true ->
  q_state req = Some s -> s <> [] -> cookie_lookup (js "oauth_state") cookies = Some s ->
  (truthy (GOOGLE_OAUTH_CLIENT_ID env) = false \/
   truthy (GOOGLE_OAUTH_CLIENT_SECRET env) = false) ->
  trace (oauth_callback env req) = [] /\
  exists name, outcome (oauth_callback env req) = Err ("Missing required env: " ++ name).
Proof.
  intros Hc Hcode Hst Hs Hl Henv. unfold oauth_callback, requireEnv.
  rewrite Hc. cbn [mbind mret]. rewrite Hcode, Hst, Hl. destruct s as [|x s']; [contradiction|].
  cbn [mbind mret js_truthy negb orb]. rewrite jseqb_refl. cbn.
  destruct Henv as [H|H]; rewrite H; cbn;
    [|destruct (truthy (GOOGLE_OAUTH_CLIENT_ID env)); cbn];
    (split; [reflexivity|eexists; reflexivity]).
Qed.

Lemma oauth_callback_missing_env_witness :
  let env := mkCallbackEnv (Some "client") (Some "") (Ok tt) in
  let req := mkRequest (Some (js "c1")) (Some (js "s1")) (Some (js "oauth_state=s1")) in
  trace (oauth_callback env req) = [] /\
  exists name, outcome (oauth_callback env req) = Err ("Missing required env: " ++ name).
Proof.
  apply (oauth_callback_missing_env (mkCallbackEnv (Some "client") (Some "") (Ok tt))
           (mkRequest (Some (js "c1")) (Some (js "s1")) (Some (js "oauth_state=s1")))
           [(js "oauth_state", js "s1")] (js "s1")); try reflexivity.
  - discriminate.
  - right. reflexivity.
Defined.

Lemma oauth_callback_rejects_witness :
  exists body, oauth_callback (mkCallbackEnv (Some "client") (Some "secret") (Ok tt))
                 (mkRequest (Some (js "c1")) (Some (js "s1")) (Some (js "oauth_state=other")))
               = ([], Ok (mkResponse 400 body)).
Proof.
  apply (oauth_callback_rejects (mkCallbackEnv (Some "client") (Some "secret") (Ok tt))
           (mkRequest (Some (js "c1")) (Some (js "s1")) (Some (js "oauth_state=other")))
           [(js "oauth_state", js "other")]); [reflexivity|].
  right. right. simpl. discriminate.
Defined.

Lemma oauth_callback_exchange_guard_witness :
  let req := mkRequest (Some (js "c1")) (Some (js "s1")) (Some (js "oauth_state=s1")) in
  js_truthy (q_code req) = true /\
  exists cookies s, parseCookies (h_cookie req) = Some cookies /\
    q_state req = Some s /\ js_truthy (Some s) = true /\
    cookie_lookup (js "oauth_state") cookies = Some s.
Proof.
  apply (oauth_callback_exchange_guard (mkCallbackEnv (Some "client") (Some "secret") (Ok tt))
           (mkRequest (Some (js "c1")) (Some (js "s1")) (Some (js "oauth_state=s1"))) (js "c1")).
  simpl. left. reflexivity.
Defined.

(** ** Stream key: reading and resolving *)

Lemma first_reusable_app_some (pre post : list LiveStream) (s : LiveStream) :
  Forall (fun x => reusable x = false) pre -> reusable s = true ->
  first_reusable (pre ++ s :: post)%list
  = Some (mkKey (streamName s) (nullish_or (rtmpsIngestionAddress s) (ingestionAddress s))).
Proof.
  induction pre as [|x r IH]; intros Hpre Hs; simpl.
  - rewrite Hs. reflexivity.
  - inversion Hpre as [|? ? Hx Hr]; subst. rewrite Hx. apply IH; assumption.
Qed.

Lemma first_reusable_exists (items : list LiveStream) (s : LiveStream) :
  In s items -> truthy (streamName s) = true -> isReusable s <> Some false ->
  exists r, first_reusable items = Some r.
Proof.
  intros Hin Hn Hr. destruct (first_reusable items) as [r|] eqn:E; [eauto|].
  exfalso. exact (first_reusable_None items E s Hin (conj Hn Hr)).
Qed.

(** X1.  When the listing holds a stream with a non-empty key whose
    [isReusable] is not [false], [getYouTubeStreamKey] behaves exactly as
    [peekYouTubeStreamKey]: the same calls (one listing, no insert) and the
    same result. *)
Theorem getYouTubeStreamKey_eq_peek (env : KeyEnv) (items : list LiveStream) (s : LiveStream) :
  k_list env = Ok items -> In s items ->
  truthy (streamName s) = true -> isReusable s <> Some false ->
  getYouTubeStreamKey env = peekYouTubeStreamKey env.
Proof.
  intros Hl Hin Hn Hr. destruct (first_reusable_exists items s Hin Hn Hr) as [r Hf].
  unfold getYouTubeStreamKey, peekYouTubeStreamKey, listStreams.
  destruct (k_token env); simpl; [|reflexivity].
  rewrite Hl. simpl. rewrite Hf. reflexivity.
Qed.

Lemma getYouTubeStreamKey_eq_peek_witness :
  getYouTubeStreamKey (mkKeyEnv (Ok "tok") (Ok [ls_single_use; ls_reusable]) (Ok (Some "new")))
  = peekYouTubeStreamKey (mkKeyEnv (Ok "tok") (Ok [ls_single_use; ls_reusable]) (Ok (Some "new"))).
Proof.
  apply (getYouTubeStreamKey_eq_peek _ [ls_single_use; ls_reusable] ls_reusable);
    [reflexivity | simpl; tauto | reflexivity | discriminate].
Defined.

(** X2.  Both resolvers return the key of the first reusable stream in
    listing order, with its [rtmpsIngestionAddress] when present and its
    [ingestionAddress] otherwise, after the single listing call. *)
Theorem streamKey_first_reusable_wins (env : KeyEnv) (tok : string)
    (pre post : list LiveStream) (s : LiveStream) :
  k_token env = Ok tok -> k_list env = Ok (pre ++ s :: post)%list ->
  Forall (fun x => reusable x = false) pre -> reusable s = true ->
  let r := mkKey (streamName s) (nullish_or (rtmpsIngestionAddress s) (ingestionAddress s)) in
  getYouTubeStreamKey env = ([ListStreams], Ok r) /\
  peekYouTubeStreamKey env = ([ListStreams], Ok r).
Proof.
  intros Ht Hl Hpre Hs. unfold getYouTubeStreamKey, peekYouTubeStreamKey, listStreams.
  rewrite Ht, Hl. simpl. rewrite (first_reusable_app_some pre post s Hpre Hs).
  split; reflexivity.
Qed.

Definition ls_second : LiveStream :=
  mkLiveStream "s2" (Some "key-2") (Some "rtmp://c") None (Some true).

Lemma streamKey_first_reusable_wins_witness :
  getYouTubeStreamKey (mkKeyEnv (Ok "tok") (Ok [ls_single_use; ls_second; ls_reusable])
                         (Ok (Some "new")))
  = ([ListStreams], Ok (mkKey (Some "key-2") (Some "rtmp://c"))) /\
  peekYouTubeStreamKey (mkKeyEnv (Ok "tok") (Ok [ls_single_use; ls_second; ls_reusable])
                          (Ok (Some "new")))
  = ([ListStreams], Ok (mkKey (Some "key-2") (Some "rtmp://c"))).
Proof.
  apply (streamKey_first_reusable_wins _ "tok" [ls_single_use] [ls_reusable] ls_second);
    [reflexivity | reflexivity | repeat constructor | reflexivity].
Defined.

(** X3.  Errors propagate unchanged: a failure to get an access token makes
    both resolvers throw it before any call, and a failed listing makes both
    throw its error after the listing call, without an insert. *)
Theorem streamKey_errors (env : KeyEnv) :
  (forall m, k_token env = Err m ->
   getYouTubeStreamKey env = ([], Err m) /\ peekYouTubeStreamKey env = ([], Err m)) /\
  (forall tok m, k_token env = Ok tok -> k_list env = Err m ->
   getYouTubeStreamKey env = ([ListStreams], Err m) /\
   peekYouTubeStreamKey env = ([ListStreams], Err m)).
Proof.
  unfold getYouTubeStreamKey, peekYouTubeStreamKey, listStreams.
  split.
  - intros m Ht. rewrite Ht. split; reflexivity.
  - intros tok m Ht Hl. rewrite Ht, Hl. split; reflexivity.
Qed.

Lemma streamKey_errors_witness :
  getYouTubeStreamKey (mkKeyEnv (Ok "tok") (Err "quotaExceeded") (Ok (Some "new")))
  = ([ListStreams], Err "quotaExceeded") /\
  peekYouTubeStreamKey (mkKeyEnv (Ok "tok") (Err "quotaExceeded") (Ok (Some "new")))
  = ([ListStreams], Err "quotaExceeded").
Proof.
  apply (proj2 (streamKey_errors (mkKeyEnv (Ok "tok") (Err "quotaExceeded") (Ok (Some "new"))))
           "tok"); reflexivity.
Defined.

(** X4.  When no listed stream is reusable, [getYouTubeStreamKey] lists,
    then inserts one stream, and returns the inserted stream's key with no
    ingest URL; a failed insert is thrown after the same two calls. *)
Theorem getYouTubeStreamKey_inserts (env : KeyEnv) (tok : string) (items : list LiveStream) :
  k_token env = Ok tok -> k_list env = Ok items ->
  (forall s, In s items -> ~ (truthy (streamName s) = true /\ isReusable s <> Some false)) ->
  trace (getYouTubeStreamKey env) = [ListStreams; InsertStream] /\
  (forall key, k_insert env = Ok key -> outcome (getYouTubeStreamKey env) = Ok (mkKey key None)) /\
  (forall m, k_insert env = Err m -> outcome (getYouTubeStreamKey env) = Err m).
Proof.
  intros Ht Hl Hno. unfold getYouTubeStreamKey, listStreams, insertReusableStream.
  rewrite Ht, Hl. simpl. rewrite (first_reusable_None_of items Hno). simpl.
  destruct (k_insert env) as [k|m]; simpl.
  - split; [reflexivity|]. split; [intros key H; inversion H; reflexivity|].
    intros m H; discriminate.
  - split; [reflexivity|]. split; [intros key H; discriminate|].
    intros m' H; inversion H; reflexivity.
Qed.

Lemma getYouTubeStreamKey_inserts_witness :
  trace (getYouTubeStreamKey (mkKeyEnv (Ok "tok") (Ok [ls_single_use]) (Ok (Some "new"))))
  = [ListStreams; InsertStream] /\
  (forall key, k_insert (mkKeyEnv (Ok "tok") (Ok [ls_single_use]) (Ok (Some "new"))) = Ok key ->
   outcome (getYouTubeStreamKey (mkKeyEnv (Ok "tok") (Ok [ls_single_use]) (Ok (Some "new"))))
   = Ok (mkKey key None)) /\
  (forall m, k_insert (mkKeyEnv (Ok "tok") (Ok [ls_single_use]) (Ok (Some "new"))) = Err m ->
   outcome (getYouTubeStreamKey (mkKeyEnv (Ok "tok") (Ok [ls_single_use]) (Ok (Some "new"))))
   = Err m).
Proof.
  apply (getYouTubeStreamKey_inserts _ "tok" [ls_single_use]); [reflexivity|reflexivity|].
  intros s [<- | []]. simpl. intros [_ Hr]. apply Hr. reflexivity.
Defined.

(** ** The loop of [pickMostRecentBroadcast], without the date hypothesis *)

Section PickFold.
Variable Date_parse : string -> option Z.

Lemma timeOf_not_NegInf b : timeOf Date_parse b <> NegInf.
Proof.
  unfold timeOf, parse_num.
  destruct (candidate b) as [c|]; [|discriminate].
  destruct (truthy (Some c)); [|discriminate].
  destruct (Date_parse c); discriminate.
Qed.

Lemma pick_fold_in l : forall acc p,
  fst (fold_left (pick_step Date_parse) l acc) = Some p -> fst acc = Some p \/ In p l.
Proof.
  induction l as [|x r IH]; intros [n t] p H; simpl in *; [left; exact H|].
  destruct (js_gt (timeOf Date_parse x) t) eqn:E.
  - destruct (IH _ _ H) as [H1|H1]; simpl in H1; [inversion H1; subst; auto|auto].
  - destruct (IH _ _ H) as [H1|H1]; simpl in H1; auto.
Qed.

Lemma pick_fold_some l : forall p t,
  fst (fold_left (pick_step Date_parse) l (Some p, t)) <> None.
Proof.
  induction l as [|x r IH]; intros p t; simpl; [discriminate|].
  destruct (js_gt (timeOf Date_parse x) t); apply IH.
Qed.

Lemma pick_fold_none l :
  fst (fold_left (pick_step Date_parse) l (None, NegInf)) = None <->
  forall b, In b l -> timeOf Date_parse b = NaN.
Proof.
  induction l as [|x r IH]; simpl; [tauto|].
  destruct (timeOf Date_parse x) eqn:Ex; simpl.
  - exfalso. exact (timeOf_not_NegInf x Ex).
  - split; [intros H; exfalso; exact (pick_fold_some r x (Fin z) H)|].
    intros H. specialize (H x (or_introl eq_refl)). congruence.
  - rewrite IH. split.
    + intros H b [<- | Hb]; [exact Ex|exact (H b Hb)].
    + intros H b Hb. exact (H b (or_intror Hb)).
Qed.

Lemma pick_in l p :
  pickMostRecentBroadcast Date_parse (Some l) = Some p -> In p l.
Proof.
  unfold pickMostRecentBroadcast. destruct l as [|x r]; [discriminate|].
  intros H. destruct (pick_fold_in (x :: r) _ _ H) as [H1|H1]; [discriminate|exact H1].
Qed.

Lemma pick_none l :
  pickMostRecentBroadcast Date_parse (Some l) = None <->
  forall b, In b l -> timeOf Date_parse b = NaN.
Proof.
  unfold pickMostRecentBroadcast. destruct l as [|x r]; [simpl; tauto|].
  apply pick_fold_none.
Qed.
End PickFold.

(** ** Upsert of the most recent active broadcast *)

Definition is_put (c : BroadcastCall) : bool :=
  match c with PutBroadcast _ _ => true | _ => false end.

Definition is_broadcast_insert (c : BroadcastCall) : bool :=
  match c with InsertBroadcast _ _ => true | _ => false end.

(** X5.  The upsert writes only where its reading allows: a PUT always
    targets an active broadcast of the listing, and a create happens only
    when no active broadcast of the listing has a parseable timestamp; the
    create is then private.  It never issues both a PUT and a create. *)
Theorem upsert_write_targets (Date_parse : string -> option Z) (env : UpsertEnv)
    (title description : option string) :
  let t := trace (upsertMostRecentActiveBroadcastTitleDescription Date_parse env
                    title description) in
  (forall id body, In (PutBroadcast id body) t ->
   exists items b, u_list env = Ok items /\ In b items /\
     isActiveStatus (lifeCycleStatus b) = true /\ id = Some (b_id b)) /\
  (forall body priv, In (InsertBroadcast body priv) t ->
   priv = Some "private" /\
   exists items, u_list env = Ok items /\
     forall b, In b items -> isActiveStatus (lifeCycleStatus b) = true ->
     timeOf Date_parse b = NaN) /\
  (length (filter is_put t) + length (filter is_broadcast_insert t) <= 1)%nat.
Proof.
  unfold upsertMostRecentActiveBroadcastTitleDescription, updateTitleDescription,
    insertBroadcast, trace.
  destruct (u_token env) as [tok|m]; cbn -[pickMostRecentBroadcast];
    [|split; [intros ? ? []|split; [intros ? ? []|cbn -[pickMostRecentBroadcast]; lia]]].
  destruct (u_list env) as [items|m] eqn:Hl; cbn -[pickMostRecentBroadcast];
    [|split; [intros ? ? [H|[]]; discriminate|split; [intros ? ? [H|[]]; discriminate|cbn -[pickMostRecentBroadcast]; lia]]].
  destruct (pickMostRecentBroadcast Date_parse
              (Some (filter (fun b => isActiveStatus (lifeCycleStatus b)) items)))
    as [p|] eqn:Hp.
  - pose proof (pick_in Date_parse _ _ Hp) as Hin.
    apply filter_In in Hin. destruct Hin as [Hin Hact].
    destruct (negb (truthy title) && negb (truthy description)); simpl.
    + destruct (u_get env); cbn -[pickMostRecentBroadcast];
        (split; [intros ? ? H; intuition discriminate|
                 split; [intros ? ? H; intuition discriminate|cbn -[pickMostRecentBroadcast]; lia]]).
    + destruct (u_put env); cbn -[pickMostRecentBroadcast]; [destruct (u_get env); simpl|].
      all: split;
        [ intros id body H;
          repeat (destruct H as [H|H]; [try discriminate H|]); try contradiction;
          inversion H; subst; exists items, p; auto
        | split; [ intros ? ? H; intuition discriminate | cbn -[pickMostRecentBroadcast]; lia ] ].
  - pose proof (proj1 (pick_none Date_parse _) Hp) as Hnan.
    destruct (u_insert env); cbn -[pickMostRecentBroadcast];
      (split; [intros ? ? H; intuition discriminate|]);
      (split; [|cbn -[pickMostRecentBroadcast]; lia]);
      intros body priv H; destruct H as [H|[H|[]]]; try discriminate H;
      inversion H; subst; (split; [reflexivity|]);
      exists items; (split; [reflexivity|]);
      intros b Hb Ha; apply Hnan; apply filter_In; auto.
Qed.

(** X6.  With neither a (non-empty) title nor a description, the upsert
    issues no PUT. *)
Theorem upsert_nothing_to_update (Date_parse : string -> option Z) (env : UpsertEnv)
    (title description : option string) :
  truthy title = false -> truthy description = false ->
  filter is_put (trace (upsertMostRecentActiveBroadcastTitleDescription Date_parse env
                          title description)) = [].
Proof.
  intros Ht Hd.
  unfold upsertMostRecentActiveBroadcastTitleDescription, updateTitleDescription,
    insertBroadcast, trace.
  rewrite Ht, Hd. cbn -[pickMostRecentBroadcast].
  destruct (u_token env); cbn -[pickMostRecentBroadcast]; [|reflexivity].
  destruct (u_list env); cbn -[pickMostRecentBroadcast]; [|reflexivity].
  destruct (pickMostRecentBroadcast _ _); cbn;
    [destruct (u_get env) | destruct (u_insert env)]; reflexivity.
Qed.

Definition bc_ready : YouTubeLiveBroadcast :=
  mkBroadcast "b7" (mkSnippet "2024-05-01T10:00:00Z" "Old title" "" None None None) "ready".

Lemma upsert_nothing_to_update_witness :
  filter is_put (trace (upsertMostRecentActiveBroadcastTitleDescription Date_parse_iso
                          (mkUpsertEnv 1700000000000 (Ok "tok") (Ok [bc_ready])
                             (Err "unused") (Ok tt) (Ok None))
                          (Some "") None)) = [].
Proof. apply upsert_nothing_to_update; reflexivity. Defined.

(** X7.  When an active broadcast is picked and there is a title or a
    description, the upsert lists, PUTs the caller's title and description
    (as given) with a start time five minutes from now on the picked
    broadcast, then reads it back; it returns what the read gives, and the
    picked broadcast when the read finds nothing. *)
Theorem upsert_update_path (Date_parse : string -> option Z) (env : UpsertEnv)
    (title description : option string) (tok : string) (items : list YouTubeLiveBroadcast)
    (p : YouTubeLiveBroadcast) :
  u_token env = Ok tok -> u_list env = Ok items ->
  pickMostRecentBroadcast Date_parse
    (Some (filter (fun b => isActiveStatus (lifeCycleStatus b)) items)) = Some p ->
  truthy title = true \/ truthy description = true ->
  u_put env = Ok tt ->
  let m := upsertMostRecentActiveBroadcastTitleDescription Date_parse env title description in
  trace m = [ListBroadcasts;
             PutBroadcast (Some (b_id p))
               (mkBody title description (Some (u_now env + FIVE_MINUTES_MS)));
             GetBroadcast (b_id p)] /\
  (u_get env = Ok None -> outcome m = Ok p) /\
  (forall u, u_get env = Ok (Some u) -> outcome m = Ok u).
Proof.
  intros Ht Hl Hp Htd Hput.
  unfold upsertMostRecentActiveBroadcastTitleDescription, updateTitleDescription.
  rewrite Ht, Hl. cbn -[pickMostRecentBroadcast]. rewrite Hp.
  replace (negb (truthy title) && negb (truthy description)) with false
    by (destruct Htd as [H|H]; rewrite H; [reflexivity|destruct (truthy title); reflexivity]).
  rewrite Hput. simpl.
  destruct (u_get env) as [[u|]|e]; simpl.
  - split; [reflexivity|]. split; [intros H; discriminate|].
    intros u' H; inversion H; reflexivity.
  - split; [reflexivity|]. split; [reflexivity|]. intros u' H; discriminate.
  - split; [reflexivity|]. split; intros; discriminate.
Qed.

Lemma upsert_update_path_witness :
  let env := mkUpsertEnv 1700000000000 (Ok "tok") (Ok [bcA; bc_ready])
               (Err "unused") (Ok tt) (Ok None) in
  let m := upsertMostRecentActiveBroadcastTitleDescription Date_parse_iso env
             (Some "New title") None in
  trace m = [ListBroadcasts;
             PutBroadcast (Some (b_id bc_ready))
               (mkBody (Some "New title") None (Some (u_now env + FIVE_MINUTES_MS)));
             GetBroadcast (b_id bc_ready)] /\
  (u_get env = Ok None -> outcome m = Ok bc_ready) /\
  (forall u, u_get env = Ok (Some u) -> outcome m = Ok u).
Proof.
  apply (upsert_update_path Date_parse_iso
           (mkUpsertEnv 1700000000000 (Ok "tok") (Ok [bcA; bc_ready])
              (Err "unused") (Ok tt) (Ok None))
           (Some "New title") None "tok" [bcA; bc_ready] bc_ready);
    [reflexivity | reflexivity | vm_compute; reflexivity | left; reflexivity | reflexivity].
Defined.

(** X8.  [getMostRecentBroadcastAnyStatus] answers [null] exactly when the
    listing is empty or none of its timestamps parses; otherwise it answers
    the details of a listed broadcast, with the watch URL of its id. *)
Theorem getMostRecentBroadcastAnyStatus_result (Date_parse : string -> option Z)
    (env : UpsertEnv) (tok : string) (items : list YouTubeLiveBroadcast) :
  u_token env = Ok tok -> u_list env = Ok items ->
  trace (getMostRecentBroadcastAnyStatus Date_parse env) = [ListBroadcasts] /\
  (outcome (getMostRecentBroadcastAnyStatus Date_parse env) = Ok None <->
   forall b, In b items -> timeOf Date_parse b = NaN) /\
  (forall info, outcome (getMostRecentBroadcastAnyStatus Date_parse env) = Ok (Some info) ->
   In (info_raw info) items /\
   info_id info = b_id (info_raw info) /\
   info_status info = lifeCycleStatus (info_raw info) /\
   info_url info = "https://www.youtube.com/watch?v=" ++ b_id (info_raw info)).
Proof.
  intros Ht Hl. unfold getMostRecentBroadcastAnyStatus.
  rewrite Ht, Hl. cbn -[pickMostRecentBroadcast].
  destruct (pickMostRecentBroadcast Date_parse (Some items)) as [p|] eqn:Hp; simpl.
  - split; [reflexivity|]. split.
    + split; [intros H; discriminate|].
      intros H. apply (proj2 (pick_none Date_parse _)) in H. congruence.
    + intros info H. inversion H; subst. simpl.
      split; [exact (pick_in Date_parse _ _ Hp)|auto].
  - split; [reflexivity|]. split.
    + split; [intros _; apply (proj1 (pick_none Date_parse _)); exact Hp|reflexivity].
    + intros info H; discriminate.
Qed.

Lemma getMostRecentBroadcastAnyStatus_result_witness :
  let env := mkUpsertEnv 1700000000000 (Ok "tok") (Ok [bcA; bc_ready])
               (Err "unused") (Ok tt) (Ok None) in
  trace (getMostRecentBroadcastAnyStatus Date_parse_iso env) = [ListBroadcasts] /\
  (outcome (getMostRecentBroadcastAnyStatus Date_parse_iso env) = Ok None <->
   forall b, In b [bcA; bc_ready] -> timeOf Date_parse_iso b = NaN) /\
  (forall info, outcome (getMostRecentBroadcastAnyStatus Date_parse_iso env) = Ok (Some info) ->
   In (info_raw info) [bcA; bc_ready] /\
   info_id info = b_id (info_raw info) /\
   info_status info = lifeCycleStatus (info_raw info) /\
   info_url info = "https://www.youtube.com/watch?v=" ++ b_id (info_raw info)).
Proof.
  apply (getMostRecentBroadcastAnyStatus_result Date_parse_iso _ "tok"); reflexivity.
Defined.

(** ** startStream: order and arguments of its calls *)

Lemma js_or_falsy (a b : option string) : truthy a = false -> js_or a b = b.
Proof. unfold js_or. intros H. rewrite H. reflexivity. Qed.

Lemma truthy_str_of (s : option string) : truthy s = true -> str_of s <> "".
Proof.
  destruct s as [v|]; simpl; [|discriminate].
  destruct (String.eqb v "") eqn:E; simpl; [discriminate|].
  intros _ Hv. subst. discriminate.
Qed.

(** The position of a provider call or a wait in the start sequence; cache
    invalidations have none. *)
Definition start_rank (c : StreamCall) : option nat :=
  match c with
  | CreateBroadcast _ _ => Some 0%nat
  | BindBroadcast _ _ => Some 1%nat
  | Wait _ => Some 2%nat
  | TransitionBroadcast _ _ => Some 3%nat
  | InvalidateQueries _ => None
  end.

Fixpoint increasing (l : list nat) : bool :=
  match l with
  | x :: (y :: _) as r => (x <? y)%nat && increasing r
  | _ => true
  end.

Ltac start_cases :=
  repeat (simpl; match goal with
    | |- context [if negb ?c then _ else _] => destruct c eqn:?
    | |- context [if ?c then _ else _] => destruct c eqn:?
    | |- context [match ?r with Ok _ => _ | Err _ => _ end] => destruct r eqn:?
    | |- context [match ?p with (_, _) => _ end] => destruct p eqn:?
    end).

Ltac in_split :=
  repeat match goal with
  | H : _ \/ _ |- _ => destruct H as [H|H]
  | H : False |- _ => contradiction H
  | H : ?C _ _ = ?C _ _ |- _ => injection H as; subst
  | H : ?C _ = ?C _ |- _ => injection H as; subst
  end.

(** X9.  [startStream] issues its calls in the fixed order create, bind,
    wait, transition, each at most once (cache invalidations apart): the
    ranks 0, 1, 2, 3 of its calls strictly increase along the trace. *)
Theorem startStream_call_order (env : StartEnv) (opts : StartStreamOptions) :
  increasing (flat_map (fun c => match start_rank c with Some n => [n] | None => [] end)
                (trace (startStream env opts))) = true.
Proof.
  unfold startStream, ensure_broadcast, await, trace. start_cases; reflexivity.
Qed.

(** X10.  The arguments of [startStream]'s calls: it binds only when the
    broadcast has no bound stream, and then binds the stream
    [opts.streamId || livestream.id], which is non-empty; the transition
    target is always ["live"]; bind and transition address the same
    broadcast; and a wait of 3500 ms happens only after a create. *)
Theorem startStream_call_arguments (env : StartEnv) (opts : StartStreamOptions) :
  let t := trace (startStream env opts) in
  (forall bid sid, In (BindBroadcast bid sid) t ->
   truthy (bh_boundStreamId (broadcast env)) = false /\
   sid = str_of (js_or (opt_streamId opts) (livestream_id env)) /\ sid <> "") /\
  (forall bid tgt, In (TransitionBroadcast bid tgt) t -> tgt = "live" /\ bid <> "") /\
  (forall b1 sid b2 tgt, In (BindBroadcast b1 sid) t -> In (TransitionBroadcast b2 tgt) t ->
   b1 = b2) /\
  (forall ms, In (Wait ms) t -> ms = 3500 /\ exists ti de, In (CreateBroadcast ti de) t).
Proof.
  unfold startStream, ensure_broadcast, await, trace. start_cases;
  (split; [intros bid sid H | split; [intros bid tgt H | split; [intros b1 sid b2 tgt H H' | intros ms H]]]);
  simpl in *; in_split; try discriminate;
  repeat split; try reflexivity; try assumption;
  try (apply truthy_str_of; assumption);
  try (rewrite (js_or_falsy (bh_boundStreamId (broadcast env))) by assumption; reflexivity);
  try (do 2 eexists; left; reflexivity).
Qed.

(** ** updateBroadcastTitleDescription: the create path *)

(** X11.  When no id is given, or the lookup finds no broadcast,
    [updateBroadcastTitleDescription] issues no PUT: after the lookup (if
    any) it creates a broadcast, without a privacy status, titled with the
    given title (an empty one included) or "my livestream" when the title is
    absent, with the given description and a start time five minutes from
    now. *)
Theorem updateBroadcast_creates_when_missing (env : UpdateEnv)
    (id title description : option string) :
  (truthy id = false \/ v_fromID env = Ok None) ->
  trace (updateBroadcastTitleDescription env id title description)
  = ((if truthy id then [GetBroadcast (str_of id)] else []) ++
     [InsertBroadcast (mkBody (Some (match title with Some t => t | None => "my livestream" end))
                              description (Some (v_now env + FIVE_MINUTES_MS))) None])%list /\
  (forall c, v_create env = Ok c ->
   outcome (updateBroadcastTitleDescription env id title description) = Ok (Created c)).
Proof.
  intros H. unfold updateBroadcastTitleDescription, createBroadcast, fromID.
  destruct (truthy id) eqn:Hid; simpl.
  - destruct H as [H|H]; [discriminate|]. rewrite H. simpl.
    destruct (v_create env); simpl; (split; [reflexivity|]);
      intros c Hc; inversion Hc; reflexivity.
  - destruct (v_create env); simpl; (split; [reflexivity|]);
      intros c Hc; inversion Hc; reflexivity.
Qed.

Lemma updateBroadcast_creates_when_missing_witness :
  let env := mkUpdateEnv 1700000000000 (Ok None) (Ok bc_scheduled) (Ok tt) in
  trace (updateBroadcastTitleDescription env (Some "gone") None None)
  = ((if truthy (Some "gone") then [GetBroadcast (str_of (Some "gone"))] else []) ++
     [InsertBroadcast (mkBody (Some "my livestream") None
                              (Some (v_now env + FIVE_MINUTES_MS))) None])%list /\
  (forall c, v_create env = Ok c ->
   outcome (updateBroadcastTitleDescription env (Some "gone") None None) = Ok (Created c)).
Proof.
  apply (updateBroadcast_creates_when_missing
           (mkUpdateEnv 1700000000000 (Ok None) (Ok bc_scheduled) (Ok tt))
           (Some "gone") None None).
  right. reflexivity.
Defined.

(** ** ensureAccessToken *)

Lemma timer_delay_in_range (d : Z) : 1 <= d <= TIMEOUT_MAX -> timer_delay (Some d) = d.
Proof.
  intros [H1 H2]. unfold timer_delay.
  apply Z.leb_le in H1. apply Z.leb_le in H2. rewrite H1, H2. reflexivity.
Qed.

Lemma poll_loop_pending (env : TokenEnv) (ms : option Z) (dc : string)
    (pend l : list (result TokenResponse)) :
  Forall (fun r => exists e, r = Err e /\ retryable e = true) pend ->
  poll_loop env ms dc (pend ++ l)%list
  = ((concat (repeat [Sleep (timer_delay ms); PollToken dc] (length pend))
       ++ fst (poll_loop env ms dc l))%list,
     snd (poll_loop env ms dc l)).
Proof.
  induction pend as [|a pend IH]; intros Hp; simpl.
  - destruct (poll_loop env ms dc l); reflexivity.
  - inversion Hp as [|? ? (e & -> & He) Hr]; subst. simpl. rewrite He.
    rewrite (IH Hr). reflexivity.
Qed.

(** X26.  The device flow arms the same timer before every poll: it waits
    [max(5, interval)] seconds when the interval is present and that many
    milliseconds are within [setTimeout]'s limit, and 1 millisecond when the
    interval is absent.  It keeps polling on every "authorization_pending"
    or "slow_down" answer, throws the first other error after that poll, and
    on the first token saves it and returns it, ignoring the answers after. *)
Theorem device_flow_polls (env : TokenEnv) (dev : DeviceCodeResponse)
    (pend rest : list (result TokenResponse)) :
  t_device env = Ok dev ->
  Forall (fun r => exists e, r = Err e /\ retryable e = true) pend ->
  let ms := timer_delay (poll_interval_ms dev) in
  let waits := concat (repeat [Sleep ms; PollToken (device_code dev)] (S (length pend))) in
  (forall i, interval dev = Some i -> Z.max 5 i * 1000 <= TIMEOUT_MAX ->
   ms = Z.max 5 i * 1000) /\
  (interval dev = None -> ms = 1) /\
  (forall m, retryable m = false -> t_polls env = (pend ++ Err m :: rest)%list ->
   device_flow env = (RequestDeviceCode :: waits, Err m)) /\
  (forall tok, t_polls env = (pend ++ Ok tok :: rest)%list -> t_save_polled env = Ok tt ->
   device_flow env = ((RequestDeviceCode :: waits) ++ [SaveToken tok],
                      Ok (Some (mkAccess (tr_access_token tok) (tr_refresh_token tok))))%list).
Proof.
  intros Hd Hp. cbv zeta.
  split; [|split].
  { intros i Hi Hle. unfold poll_interval_ms. rewrite Hi. cbn [option_map].
    apply timer_delay_in_range. lia. }
  { intros Hi. unfold poll_interval_ms. rewrite Hi. reflexivity. }
  unfold device_flow. rewrite Hd. cbn [mbind emit mret await app].
  replace (concat (repeat [Sleep (timer_delay (poll_interval_ms dev)); PollToken (device_code dev)]
                     (S (length pend))))
    with (concat (repeat [Sleep (timer_delay (poll_interval_ms dev)); PollToken (device_code dev)]
                    (length pend)) ++ [Sleep (timer_delay (poll_interval_ms dev));
                                       PollToken (device_code dev)])%list.
  2:{ clear. induction (length pend) as [|n IH]; [reflexivity|].
      simpl in *. rewrite IH. reflexivity. }
  split.
  - intros m Hm Hpolls. rewrite Hpolls, (poll_loop_pending _ _ _ _ _ Hp). simpl.
    rewrite Hm. simpl. reflexivity.
  - intros tok Hpolls Hs. rewrite Hpolls, (poll_loop_pending _ _ _ _ _ Hp). simpl.
    rewrite Hs. simpl. rewrite <- !app_assoc. reflexivity.
Qed.

Lemma device_flow_polls_witness :
  let env := mkTokenEnv (Some "id") (Some "secret") None (Err "unused") (Ok tt)
               (Ok (mkDevice "dc" (Some 3)))
               [Err "authorization_pending"; Err "slow_down"; Err "access_denied";
                Ok (mkToken (Some "at") (Some "rt"))]
               (Ok tt) in
  let env' := mkTokenEnv (Some "id") (Some "secret") None (Err "unused") (Ok tt)
               (Ok (mkDevice "dc" None))
               [Err "authorization_pending"; Ok (mkToken (Some "at") (Some "rt"))]
               (Ok tt) in
  timer_delay (poll_interval_ms (mkDevice "dc" (Some 3))) = 5000 /\
  device_flow env
  = (RequestDeviceCode :: concat (repeat [Sleep 5000; PollToken "dc"] 3), Err "access_denied") /\
  timer_delay (poll_interval_ms (mkDevice "dc" None)) = 1 /\
  device_flow env'
  = ((RequestDeviceCode :: concat (repeat [Sleep 1; PollToken "dc"] 2))
       ++ [SaveToken (mkToken (Some "at") (Some "rt"))],
     Ok (Some (mkAccess (Some "at") (Some "rt"))))%list.
Proof.
  destruct (device_flow_polls
    (mkTokenEnv (Some "id") (Some "secret") None (Err "unused") (Ok tt)
       (Ok (mkDevice "dc" (Some 3)))
       [Err "authorization_pending"; Err "slow_down"; Err "access_denied";
        Ok (mkToken (Some "at") (Some "rt"))]
       (Ok tt))
    (mkDevice "dc" (Some 3)) [Err "authorization_pending"; Err "slow_down"]
    [Ok (mkToken (Some "at") (Some "rt"))] eq_refl) as [H1 [_ [H _]]].
  { repeat constructor; eexists; (split; [reflexivity|vm_compute; reflexivity]). }
  destruct (device_flow_polls
    (mkTokenEnv (Some "id") (Some "secret") None (Err "unused") (Ok tt)
       (Ok (mkDevice "dc" None))
       [Err "authorization_pending"; Ok (mkToken (Some "at") (Some "rt"))]
       (Ok tt))
    (mkDevice "dc" None) [Err "authorization_pending"] [] eq_refl) as [_ [H2 [_ H']]].
  { repeat constructor; eexists; (split; [reflexivity|vm_compute; reflexivity]). }
  split; [|split; [|split]].
  - apply (H1 3); [reflexivity|unfold TIMEOUT_MAX; lia].
  - apply H; vm_compute; reflexivity.
  - apply H2; reflexivity.
  - apply H'; reflexivity.
Defined.

(** X27.  [ensureAccessToken] throws "Expected a string value", before any
    call, when [GOOGLE_OAUTH_CLIENT_ID] or [GOOGLE_OAUTH_CLIENT_SECRET] is
    undefined. *)
Theorem ensureAccessToken_missing_env (env : TokenEnv) :
  t_client_id env = None \/ t_client_secret env = None ->
  ensureAccessToken env = ([], Err "Expected a string value").
Proof.
  intros [H|H]; unfold ensureAccessToken, validateString; rewrite H; [reflexivity|].
  destruct (t_client_id env); reflexivity.
Qed.

Lemma ensureAccessToken_missing_env_witness :
  ensureAccessToken (mkTokenEnv (Some "id") None None (Err "unused") (Ok tt)
                       (Ok (mkDevice "dc" (Some 5))) [] (Ok tt))
  = ([], Err "Expected a string value").
Proof. apply ensureAccessToken_missing_env. right. reflexivity. Defined.

(** X22.  With a saved refresh token whose refresh and save succeed,
    [ensureAccessToken] makes exactly those two calls and no device flow: it
    saves the new access token (the saved one when the answer has none) with
    the saved refresh token, and returns the new access token with the saved
    refresh token, whatever refresh token the answer carries. *)
Theorem ensureAccessToken_refresh (env : TokenEnv) (cid sec : string)
    (saved refreshed : TokenResponse) :
  t_client_id env = Some cid -> t_client_secret env = Some sec ->
  t_saved env = Some saved -> truthy (tr_refresh_token saved) = true ->
  t_refresh env = Ok refreshed -> t_save_refreshed env = Ok tt ->
  ensureAccessToken env
  = ([RefreshToken (str_of (tr_refresh_token saved));
      SaveToken (mkToken (nullish_or (tr_access_token refreshed) (tr_access_token saved))
                         (tr_refresh_token saved))],
     Ok (Some (mkAccess (tr_access_token refreshed) (tr_refresh_token saved)))).
Proof.
  intros Hi Hs Hsv Hrt Hr Hsr. unfold ensureAccessToken, validateString.
  rewrite Hi, Hs, Hsv. simpl. rewrite Hrt, Hr. simpl. rewrite Hsr. reflexivity.
Qed.

Lemma ensureAccessToken_refresh_witness :
  ensureAccessToken (mkTokenEnv (Some "id") (Some "secret")
                       (Some (mkToken (Some "old") (Some "rt")))
                       (Ok (mkToken (Some "new") (Some "rt2"))) (Ok tt)
                       (Ok (mkDevice "dc" (Some 5))) [] (Ok tt))
  = ([RefreshToken "rt"; SaveToken (mkToken (Some "new") (Some "rt"))],
     Ok (Some (mkAccess (Some "new") (Some "rt")))).
Proof.
  apply (ensureAccessToken_refresh _ "id" "secret" (mkToken (Some "old") (Some "rt"))
           (mkToken (Some "new") (Some "rt2"))); reflexivity.
Defined.

(** X23.  Without a saved non-empty refresh token [ensureAccessToken] runs
    the device flow; with one whose refresh fails, or whose saving fails, it
    runs the device flow after the failed attempt, and its result is the
    device flow's. *)
Theorem ensureAccessToken_fallback (env : TokenEnv) (cid sec : string) :
  t_client_id env = Some cid -> t_client_secret env = Some sec ->
  ((forall saved, t_saved env = Some saved -> truthy (tr_refresh_token saved) = false) ->
   ensureAccessToken env = device_flow env) /\
  (forall saved, t_saved env = Some saved -> truthy (tr_refresh_token saved) = true ->
   (exists m, t_refresh env = Err m) \/
   (exists r m, t_refresh env = Ok r /\ t_save_refreshed env = Err m) ->
   exists pre,
     trace (ensureAccessToken env)
       = (RefreshToken (str_of (tr_refresh_token saved)) :: pre ++ trace (device_flow env))%list /\
     (forall c, In c pre -> exists obj, c = SaveToken obj) /\
     outcome (ensureAccessToken env) = outcome (device_flow env)).
Proof.
  intros Hi Hs. unfold ensureAccessToken, validateString. rewrite Hi, Hs. simpl.
  split.
  - intros Hno. destruct (t_saved env) as [saved|];
      [rewrite (Hno saved eq_refl)|]; simpl; destruct (device_flow env); reflexivity.
  - intros saved Hsv Hrt Hfail. rewrite Hsv, Hrt. simpl.
    destruct Hfail as [[m Hr] | (r & m & Hr & Hsr)]; rewrite Hr; simpl.
    + destruct (device_flow env) as [t res]. exists []. simpl.
      split; [reflexivity|]. split; [intros c []|reflexivity].
    + rewrite Hsr. simpl. destruct (device_flow env) as [t res].
      eexists [_]. simpl. split; [reflexivity|].
      split; [intros c [<- | []]; eexists; reflexivity|reflexivity].
Qed.

Lemma ensureAccessToken_fallback_witness :
  let env := mkTokenEnv (Some "id") (Some "secret")
               (Some (mkToken (Some "old") (Some "rt")))
               (Err "invalid_grant") (Ok tt)
               (Ok (mkDevice "dc" (Some 5))) [Ok (mkToken (Some "at") (Some "rt9"))] (Ok tt) in
  exists pre,
    trace (ensureAccessToken env)
      = (RefreshToken "rt" :: pre ++ trace (device_flow env))%list /\
    (forall c, In c pre -> exists obj, c = SaveToken obj) /\
    outcome (ensureAccessToken env) = outcome (device_flow env).
Proof.
  apply (proj2 (ensureAccessToken_fallback
    (mkTokenEnv (Some "id") (Some "secret") (Some (mkToken (Some "old") (Some "rt")))
       (Err "invalid_grant") (Ok tt) (Ok (mkDevice "dc" (Some 5)))
       [Ok (mkToken (Some "at") (Some "rt9"))] (Ok tt))
    "id" "secret" eq_refl eq_refl) (mkToken (Some "old") (Some "rt"))); try reflexivity.
  left. eexists. reflexivity.
Defined.

(** Every poll in a trace comes right after a wait of at least 5 s. *)
Definition polls_paced (t : list TokenCall) : Prop :=
  forall pre dc post, t = (pre ++ PollToken dc :: post)%list ->
  exists pre' ms, pre = (pre' ++ [Sleep ms])%list /\ 5000 <= ms.

Lemma polls_paced_nil : polls_paced [].
Proof. intros pre dc post H. destruct pre; discriminate. Qed.

Lemma polls_paced_cons_other (c : TokenCall) (t : list TokenCall) :
  (forall d, c <> PollToken d) -> polls_paced t -> polls_paced (c :: t).
Proof.
  intros Hc Ht pre dc post H. destruct pre as [|x pre2]; simpl in H.
  - inversion H; subst. exfalso. exact (Hc dc eq_refl).
  - inversion H; subst. destruct (Ht pre2 dc post eq_refl) as (pre' & ms & -> & Hms).
    exists (x :: pre'), ms. split; [reflexivity|exact Hms].
Qed.

Lemma polls_paced_sleep_poll (ms : Z) (dc : string) (t : list TokenCall) :
  5000 <= ms -> polls_paced t -> polls_paced (Sleep ms :: PollToken dc :: t).
Proof.
  intros Hms Ht pre d post H. destruct pre as [|x [|y pre2]]; simpl in H.
  - discriminate H.
  - inversion H; subst. exists [], ms. split; [reflexivity|exact Hms].
  - inversion H; subst. destruct (Ht pre2 d post eq_refl) as (pre' & ms' & -> & Hms').
    exists (Sleep ms :: PollToken dc :: pre'), ms'. split; [reflexivity|exact Hms'].
Qed.

Lemma polls_paced_app_other (a t : list TokenCall) :
  Forall (fun c => forall d, c <> PollToken d) a -> polls_paced t -> polls_paced (a ++ t)%list.
Proof.
  induction a as [|c a IH]; intros Ha Ht; [exact Ht|].
  inversion Ha as [|? ? Hc Hr]; subst. simpl.
  apply polls_paced_cons_other; [exact Hc|]. apply IH; assumption.
Qed.

Lemma poll_loop_paced (env : TokenEnv) (ms : option Z) (dc : string)
    (answers : list (result TokenResponse)) :
  5000 <= timer_delay ms -> polls_paced (trace (poll_loop env ms dc answers)).
Proof.
  intros Hms. induction answers as [|a rest IH]; simpl; [exact polls_paced_nil|].
  unfold trace in *.
  destruct a as [tok|m]; simpl.
  - destruct (t_save_polled env) as [[]|m]; simpl.
    + apply polls_paced_sleep_poll; [exact Hms|].
      apply (polls_paced_app_other [SaveToken tok] []);
        [repeat constructor; discriminate|exact polls_paced_nil].
    + destruct (retryable m); simpl.
      * destruct (poll_loop env ms dc rest) as [t r]. simpl in *.
        apply polls_paced_sleep_poll; [exact Hms|].
        apply (polls_paced_app_other [SaveToken tok] t);
          [repeat constructor; discriminate|exact IH].
      * apply polls_paced_sleep_poll; [exact Hms|].
        apply (polls_paced_app_other [SaveToken tok] []);
          [repeat constructor; discriminate|exact polls_paced_nil].
  - destruct (retryable m); simpl.
    + destruct (poll_loop env ms dc rest) as [t r]. simpl in *.
      apply polls_paced_sleep_poll; [exact Hms|exact IH].
    + apply polls_paced_sleep_poll; [exact Hms|exact polls_paced_nil].
Qed.

Lemma device_flow_paced (env : TokenEnv) :
  (forall dev, t_device env = Ok dev ->
   exists i, interval dev = Some i /\ Z.max 5 i * 1000 <= TIMEOUT_MAX) ->
  polls_paced (trace (device_flow env)).
Proof.
  intros Hiv. unfold device_flow, trace. destruct (t_device env) as [dev|m] eqn:Ed; simpl.
  - destruct (Hiv dev eq_refl) as (i & Hi & Hle).
    assert (Hms : 5000 <= timer_delay (poll_interval_ms dev)).
    { unfold poll_interval_ms. rewrite Hi. cbn [option_map].
      rewrite timer_delay_in_range by lia. lia. }
    pose proof (poll_loop_paced env (poll_interval_ms dev) (device_code dev)
                  (t_polls env) Hms) as H.
    unfold trace in H. destruct (poll_loop _ _ _ _) as [t r]. simpl in *.
    apply polls_paced_cons_other; [discriminate|exact H].
  - apply polls_paced_cons_other; [discriminate|exact polls_paced_nil].
Qed.

(** X24.  When the device-code answer gives an interval whose
    [max(5, interval)] seconds are within [setTimeout]'s limit,
    [ensureAccessToken] never polls the token endpoint without first
    waiting: every poll comes right after a wait of at least 5 seconds. *)
Theorem ensureAccessToken_polls_paced (env : TokenEnv) :
  (forall dev, t_device env = Ok dev ->
   exists i, interval dev = Some i /\ Z.max 5 i * 1000 <= TIMEOUT_MAX) ->
  forall pre dc post, trace (ensureAccessToken env) = (pre ++ PollToken dc :: post)%list ->
  exists pre' ms, pre = (pre' ++ [Sleep ms])%list /\ 5000 <= ms.
Proof.
  intros Hiv. change (polls_paced (trace (ensureAccessToken env))).
  pose proof (device_flow_paced env Hiv) as Hd.
  unfold ensureAccessToken, validateString, trace in *.
  destruct (t_client_id env); simpl; [|exact polls_paced_nil].
  destruct (t_client_secret env); simpl; [|exact polls_paced_nil].
  destruct (t_saved env) as [saved|]; simpl;
    [|destruct (device_flow env); exact Hd].
  destruct (truthy (tr_refresh_token saved)); simpl;
    [|destruct (device_flow env); exact Hd].
  destruct (t_refresh env) as [r|m]; simpl.
  - destruct (t_save_refreshed env) as [[]|m]; simpl.
    + apply (polls_paced_app_other [_; _] []);
        [repeat constructor; discriminate|exact polls_paced_nil].
    + destruct (device_flow env) as [t res]. simpl in *.
      apply (polls_paced_app_other [_; _] t); [repeat constructor; discriminate|exact Hd].
  - destruct (device_flow env) as [t res]. simpl in *.
    apply (polls_paced_app_other [_] t); [repeat constructor; discriminate|exact Hd].
Qed.

Lemma ensureAccessToken_polls_paced_witness :
  exists pre' ms, [RequestDeviceCode; Sleep 5000] = (pre' ++ [Sleep ms])%list /\ 5000 <= ms.
Proof.
  refine (ensureAccessToken_polls_paced
           (mkTokenEnv (Some "id") (Some "secret") None (Err "unused") (Ok tt)
              (Ok (mkDevice "dc" (Some 1))) [Ok (mkToken (Some "at") (Some "rt"))] (Ok tt))
           _ [RequestDeviceCode; Sleep 5000] "dc" [SaveToken (mkToken (Some "at") (Some "rt"))] _).
  - intros dev Hdev. injection Hdev as <-. exists 1.
    split; [reflexivity|unfold TIMEOUT_MAX; lia].
  - reflexivity.
Defined.

Lemma poll_loop_saves (env : TokenEnv) (ms : option Z) (dc : string) (answers : list (result TokenResponse)) :
  forall a, outcome (poll_loop env ms dc answers) = Ok (Some a) ->
  exists pre obj, trace (poll_loop env ms dc answers) = (pre ++ [SaveToken obj])%list /\
    tr_refresh_token obj = at_refresh_token a /\ tr_access_token obj = at_access_token a.
Proof.
  induction answers as [|x rest IH]; intros a H; [discriminate|].
  unfold trace, outcome in *. simpl in *.
  destruct x as [tok|m]; simpl in *.
  - destruct (t_save_polled env) as [[]|m]; simpl in *.
    + inversion H; subst. exists [Sleep (timer_delay ms); PollToken dc], tok. auto.
    + destruct (retryable m); simpl in *; [|discriminate].
      destruct (poll_loop env ms dc rest) as [t r]. simpl in *.
      destruct (IH a H) as (pre & obj & -> & H1 & H2).
      exists (Sleep (timer_delay ms) :: PollToken dc :: SaveToken tok :: pre), obj. auto.
  - destruct (retryable m); simpl in *; [|discriminate].
    destruct (poll_loop env ms dc rest) as [t r]. simpl in *.
    destruct (IH a H) as (pre & obj & -> & H1 & H2).
    exists (Sleep (timer_delay ms) :: PollToken dc :: pre), obj. auto.
Qed.

Lemma device_flow_saves (env : TokenEnv) (a : AccessToken) :
  outcome (device_flow env) = Ok (Some a) ->
  exists pre obj, trace (device_flow env) = (pre ++ [SaveToken obj])%list /\
    tr_refresh_token obj = at_refresh_token a /\ tr_access_token obj = at_access_token a.
Proof.
  unfold device_flow. destruct (t_device env) as [dev|m]; simpl; [|discriminate].
  pose proof (poll_loop_saves env (poll_interval_ms dev) (device_code dev)
                (t_polls env) a) as H.
  unfold trace, outcome in *. destruct (poll_loop _ _ _ _) as [t r]. simpl in *.
  intros Hr. destruct (H Hr) as (pre & obj & -> & H1 & H2).
  exists (RequestDeviceCode :: pre), obj. auto.
Qed.

(** X25.  A token that [ensureAccessToken] returns has been saved: its last
    call is the save of a token object with the returned refresh token and,
    when an access token is returned, the same access token. *)
Theorem ensureAccessToken_returns_saved (env : TokenEnv) (a : AccessToken) :
  outcome (ensureAccessToken env) = Ok (Some a) ->
  exists pre obj, trace (ensureAccessToken env) = (pre ++ [SaveToken obj])%list /\
    tr_refresh_token obj = at_refresh_token a /\
    (at_access_token a <> None -> tr_access_token obj = at_access_token a).
Proof.
  pose proof (device_flow_saves env a) as Hd.
  unfold ensureAccessToken, validateString, trace, outcome in *.
  destruct (t_client_id env); simpl; [|discriminate].
  destruct (t_client_secret env); simpl; [|discriminate].
  assert (Hdev : snd (device_flow env) = Ok (Some a) ->
                 exists pre obj, fst (device_flow env) = (pre ++ [SaveToken obj])%list /\
                   tr_refresh_token obj = at_refresh_token a /\
                   (at_access_token a <> None -> tr_access_token obj = at_access_token a)).
  { intros Hr. destruct (Hd Hr) as (pre & obj & E & H1 & H2). eauto. }
  destruct (t_saved env) as [saved|]; simpl;
    [|destruct (device_flow env); exact Hdev].
  destruct (truthy (tr_refresh_token saved)); simpl;
    [|destruct (device_flow env); exact Hdev].
  destruct (t_refresh env) as [r|m]; simpl.
  - destruct (t_save_refreshed env) as [[]|m]; simpl.
    + intros H. inversion H; subst. exists [RefreshToken (str_of (tr_refresh_token saved))].
      eexists. split; [reflexivity|]. simpl. split; [reflexivity|].
      intros Hn. destruct (tr_access_token r); [reflexivity|contradiction].
    + destruct (device_flow env) as [t res]. simpl in *. intros Hr.
      destruct (Hdev Hr) as (pre & obj & -> & H1 & H2).
      exists (RefreshToken (str_of (tr_refresh_token saved)) :: SaveToken
                (mkToken (nullish_or (tr_access_token r) (tr_access_token saved))
                         (tr_refresh_token saved)) :: pre), obj. auto.
  - destruct (device_flow env) as [t res]. simpl in *. intros Hr.
    destruct (Hdev Hr) as (pre & obj & -> & H1 & H2).
    exists (RefreshToken (str_of (tr_refresh_token saved)) :: pre), obj. auto.
Qed.

Lemma ensureAccessToken_returns_saved_witness :
  let env := mkTokenEnv (Some "id") (Some "secret") None (Err "unused") (Ok tt)
               (Ok (mkDevice "dc" (Some 5)))
               [Err "authorization_pending"; Ok (mkToken (Some "at") (Some "rt"))] (Ok tt) in
  exists pre obj, trace (ensureAccessToken env) = (pre ++ [SaveToken obj])%list /\
    tr_refresh_token obj = Some "rt" /\
    (Some "at" <> None -> tr_access_token obj = Some "at").
Proof.
  apply (ensureAccessToken_returns_saved
    (mkTokenEnv (Some "id") (Some "secret") None (Err "unused") (Ok tt)
       (Ok (mkDevice "dc" (Some 5)))
       [Err "authorization_pending"; Ok (mkToken (Some "at") (Some "rt"))] (Ok tt))
    (mkAccess (Some "at") (Some "rt"))).
  vm_compute. reflexivity.
Defined.

(** ** useLivestream *)

Lemma useLivestream_label_nonempty (status : option string) :
  useLivestream_label status <> "".
Proof.
  unfold useLivestream_label, js_or.
  destruct status as [s|]; [|discriminate].
  destruct (truthy (Some s)) eqn:Ts.
  - pose proof (truthy_str_of _ Ts) as Hs. simpl in Hs.
    destruct s as [|c0 s']; [contradiction|].
    repeat (match goal with |- context [match ?x with _ => _ end] => destruct x end);
      try discriminate; exact Hs.
  - repeat (match goal with |- context [match ?x with _ => _ end] => destruct x end);
      discriminate.
Qed.

(** X28.  The status query of [useLivestream] makes no request without an
    access token.  With one it makes one [liveStreams.list] request for
    ["id,status"] and then: it throws when the request fails or the body is
    not JSON; on a non-ok answer with a JSON body it throws the provider's
    error message (or "Failed to fetch liveStreams"); on an ok answer it
    throws when [items] is absent, answers no status exactly when [items] is
    empty, and otherwise reports the first stream's id with a non-empty
    status label. *)
Theorem useLivestream_queryFn_spec (accessToken : option string)
    (resp : FetchResponse StreamStatusItem) :
  (truthy accessToken = false -> useLivestream_queryFn accessToken resp = ([], Ok None)) /\
  (truthy accessToken = true ->
   trace (useLivestream_queryFn accessToken resp) = [FetchLiveStreams "id,status"] /\
   (forall m, resp = FetchRejected m -> outcome (useLivestream_queryFn accessToken resp) = Err m) /\
   (forall ok, resp = FetchAnswer ok None ->
    exists e, outcome (useLivestream_queryFn accessToken resp) = Err e) /\
   (forall data, resp = FetchAnswer false (Some data) ->
    outcome (useLivestream_queryFn accessToken resp)
    = Err (if truthy (json_error_message data) then str_of (json_error_message data)
           else "Failed to fetch liveStreams")) /\
   (forall data, resp = FetchAnswer true (Some data) ->
    (outcome (useLivestream_queryFn accessToken resp) = Ok None <-> json_items data = Some []) /\
    (json_items data = None -> exists e, outcome (useLivestream_queryFn accessToken resp) = Err e) /\
    forall lbl id, outcome (useLivestream_queryFn accessToken resp) = Ok (Some (lbl, id)) ->
    lbl <> "" /\ exists latest rest, json_items data = Some (latest :: rest) /\ id = st_id latest)).
Proof.
  unfold useLivestream_queryFn, fetchStreams. split.
  - intros H. rewrite H. reflexivity.
  - intros H. rewrite H. cbn [negb].
    split; [|split; [|split; [|split]]].
    + destruct resp as [m|[] [[|[[|? ?]|] ?]|]]; reflexivity.
    + intros m ->. reflexivity.
    + intros ok ->. eexists. reflexivity.
    + intros data ->. cbn. unfold js_or. destruct (truthy (json_error_message data)); reflexivity.
    + intros data ->. destruct data as [|[[|latest rest]|] msg]; cbn.
      * split; [split; intros Hx; discriminate Hx|].
        split; [intros _; eexists; reflexivity|intros ? ? Hx; discriminate Hx].
      * split; [tauto|]. split; [intros Hx; discriminate Hx|intros ? ? Hx; discriminate Hx].
      * split; [split; intros Hx; discriminate Hx|].
        split; [intros Hx; discriminate Hx|].
        intros lbl id Hx. injection Hx as <- <-.
        split; [apply useLivestream_label_nonempty|].
        exists latest, rest. split; reflexivity.
      * split; [split; intros Hx; discriminate Hx|].
        split; [intros _; eexists; reflexivity|intros ? ? Hx; discriminate Hx].
Qed.

Lemma useLivestream_queryFn_spec_witness :
  let ok_resp := @FetchAnswer StreamStatusItem true
                   (Some (JsonValue (Some [mkStatusItem "s1" (Some "inactive")]) None)) in
  let err_resp := @FetchAnswer StreamStatusItem false
                   (Some (JsonValue None (Some "quotaExceeded"))) in
  let html_resp := @FetchAnswer StreamStatusItem false None in
  trace (useLivestream_queryFn (Some "tok") ok_resp) = [FetchLiveStreams "id,status"] /\
  outcome (useLivestream_queryFn (Some "tok") err_resp) = Err "quotaExceeded" /\
  (exists e, outcome (useLivestream_queryFn (Some "tok") html_resp) = Err e) /\
  (forall lbl id, outcome (useLivestream_queryFn (Some "tok") ok_resp) = Ok (Some (lbl, id)) ->
   lbl <> "" /\ exists latest rest,
     json_items (JsonValue (Some [mkStatusItem "s1" (Some "inactive")]) None)
     = Some (latest :: rest) /\ id = st_id latest).
Proof.
  destruct (proj2 (useLivestream_queryFn_spec (Some "tok")
                  (@FetchAnswer StreamStatusItem true
                     (Some (JsonValue (Some [mkStatusItem "s1" (Some "inactive")]) None)))) eq_refl)
    as [Ht [_ [_ [_ Hok]]]].
  destruct (proj2 (useLivestream_queryFn_spec (Some "tok")
                  (@FetchAnswer StreamStatusItem false
                     (Some (JsonValue None (Some "quotaExceeded"))))) eq_refl)
    as [_ [_ [_ [Herr _]]]].
  destruct (proj2 (useLivestream_queryFn_spec (Some "tok")
                  (@FetchAnswer StreamStatusItem false None)) eq_refl)
    as [_ [_ [Hhtml _]]].
  split; [exact Ht|split; [|split]].
  - rewrite (Herr _ eq_refl). reflexivity.
  - exact (Hhtml false eq_refl).
  - exact (proj2 (proj2 (Hok _ eq_refl))).
Defined.
